(** * DevNet: the simulated CI/CD dashboard of [devops_monitor.py]

    A shallow embedding of the run engine ([_simulate_pipeline]), the
    snapshot store ([_save_current_snapshot]), the request handler
    ([api_run]) and the statistics ([_calc_stats]), followed by the
    properties the specification states about them.

    Conventions of the embedding.
    - A [datetime] is the number of microseconds since the epoch, a [Z].
      Parsing and printing of ISO-8601 text is not modelled: a timestamp
      field holds the instant its text denotes.
    - A Python [float] is an IEEE-754 binary64 value, [spec_float] with
      precision 53 and maximal exponent 1024, and every float operation of
      the source is the correctly rounded operation of the standard library.
    - A Python [str] is the bytes of its UTF-8 encoding, a [string]; a lone
      surrogate, which UTF-8 proper cannot encode, is held as the three bytes
      ED A0..BF 80..BF of its generalised encoding, and [encodable] tells
      whether a text is free of them.
    - The two JSON documents and the log directory form the [world]; the
      functions that touch them take and return a [world].  Reading and
      writing the two documents is taken to succeed ([json.dump] escapes
      every character that is not ASCII); a log write raises on a text that
      cannot be encoded, see [write_raises] and [run_thread].
    - The clock and the random generator are oracles of an [env]. *)

From Stdlib Require Import ZArith List String Ascii Bool Lia.
From Stdlib Require Import SpecFloat DecimalString.
Import ListNotations.

Local Open Scope string_scope.
Local Open Scope list_scope.
Local Open Scope Z_scope.

(** ** Python numbers *)

Module PyFloat.

Definition float : Type := spec_float.

Definition prec : Z := 53.
Definition emax : Z := 1024.

Definition fadd : float -> float -> float := SFadd prec emax.
Definition fsub : float -> float -> float := SFsub prec emax.
Definition fmul : float -> float -> float := SFmul prec emax.
Definition fdiv : float -> float -> float := SFdiv prec emax.
Definition flt : float -> float -> bool := SFltb.

Definition zero : float := S754_zero false.

(** An integer as an unrounded mantissa with exponent 0. *)
Definition exact (z : Z) : float :=
  match z with
  | Z0 => S754_zero false
  | Zpos p => S754_finite false p 0
  | Zneg p => S754_finite true p 0
  end.

(** [float(z)]: the nearest binary64 value, ties to even. *)
Definition of_int (z : Z) : float := binary_normalize prec emax z 0 false.

(** The correctly rounded quotient of two integers, [b <> 0]: the value of
    a decimal literal such as [0.01], and of [a / b] on Python ints.  A zero
    numerator keeps the sign of the quotient, as CPython does. *)
Definition ratio (a b : Z) : float :=
  match a with
  | Z0 => S754_zero (b <? 0)
  | _ => fdiv (exact a) (exact b)
  end.

(** [a / b] on ints rounds to infinity exactly when
    [|a / b| >= 2^1024 - 2^970]; CPython raises [OverflowError] there. *)
Definition truediv_overflows (a b : Z) : bool :=
  (2 ^ 1024 - 2 ^ 970) * Z.abs b <=? Z.abs a.

(** [a / b] on two Python ints; [None] is [ZeroDivisionError] or
    [OverflowError]. *)
Definition int_truediv (a b : Z) : option float :=
  if b =? 0 then None
  else if truediv_overflows a b then None
  else Some (ratio a b).

(** [int(x)]: truncation towards zero; [None] is the [OverflowError] or
    [ValueError] raised on an infinity or a NaN. *)
Definition py_int (x : float) : option Z :=
  match x with
  | S754_zero _ => Some 0
  | S754_finite s m e =>
      let a := if 0 <=? e then Zpos m * 2 ^ e else Zpos m / 2 ^ (- e) in
      Some (if s then - a else a)
  | S754_infinity _ | S754_nan => None
  end.

(** The integer nearest to [n / d], ties to even ([0 <= n], [0 < d]). *)
Definition round_half_even (n d : Z) : Z :=
  let q := n / d in
  let r := n mod d in
  match 2 * r ?= d with
  | Lt => q
  | Gt => q + 1
  | Eq => if Z.even q then q else q + 1
  end.

(** [round(x, 1)]: CPython prints [x] correctly rounded to one digit after
    the point and reads the text back, so the result is the float nearest
    to [k / 10], [k] the integer nearest to [10 * x]; zeros, infinities and
    NaN are returned as they are. *)
Definition py_round1 (x : float) : float :=
  match x with
  | S754_finite s m e =>
      let k := if 0 <=? e then round_half_even (10 * Zpos m * 2 ^ e) 1
               else round_half_even (10 * Zpos m) (2 ^ (- e)) in
      match k with
      | Z0 => S754_zero s
      | _ => ratio (if s then - k else k) 10
      end
  | _ => x
  end.

(** [sum(xs)] of floats as CPython computes it up to version 3.11: the
    additions from left to right, from the int [0].  The [sum] of CPython
    3.12 and later is [fsum_compensated] below. *)
Definition fsum (xs : list float) : float := fold_left fadd xs zero.

(** One round of the compensated loop of [sum] in CPython 3.12 and later
    (Neumaier's variant of Kahan's summation): [f] is the running sum, [c]
    the running compensation.
    [t = f + x; if fabs(f) >= fabs(x): c += (f - t) + x; else: c += (x - t) + f; f = t]. *)
Definition compensated_step (acc : float * float) (x : float) : float * float :=
  let '(f, c) := acc in
  let t := fadd f x in
  let c :=
    if SFleb (SFabs x) (SFabs f) then fadd c (fadd (fsub f t) x)
    else fadd c (fadd (fsub x t) f) in
  (t, c).

(** [sum(xs)] of floats as CPython computes it from version 3.12 on: the
    first float is added to the int [0], the others go through the
    compensated loop, and the compensation is added at the end if it is
    finite and not zero. *)
Definition fsum_compensated (xs : list float) : float :=
  match xs with
  | [] => zero
  | x :: rest =>
      let '(f, c) := fold_left compensated_step rest (fadd zero x, zero) in
      match c with
      | S754_finite _ _ _ => fadd f c
      | _ => f
      end
  end.

(** [random.random()]: a multiple of [2^-53] in [[0, 1)], from 53 random
    bits [k]. *)
Definition random53 (k : Z) : float :=
  binary_normalize prec emax (k mod 2 ^ 53) (- 53) false.

(** [random.uniform(a, b)] is [a + (b - a) * random()]. *)
Definition uniform (a b : float) (k : Z) : float :=
  fadd a (fmul (fsub b a) (random53 k)).

End PyFloat.

Import PyFloat.

(** A number of the statistics: the int [0] of the early return and the
    floats of the general case print differently. *)
Inductive pynum : Type :=
| PyInt (z : Z)
| PyFloat (x : float).

Definition pynum_is_zero (n : pynum) : bool :=
  match n with
  | PyInt z => z =? 0
  | PyFloat (S754_zero _) => true
  | PyFloat _ => false
  end.

(** ** Data model *)

(** A run, the dict built by [api_run].  [None] in a field is Python's
    [None]. *)
Record run : Type := mkRun {
  run_id : string;
  job : string;
  status : string;
  steps : list string;
  current_step : option string;
  started_at : Z;
  finished_at : option Z;
  duration_s : option Z
}.

Definition set_status (r : run) (s : string) : run :=
  mkRun (run_id r) (job r) s (steps r) (current_step r) (started_at r)
        (finished_at r) (duration_s r).

Definition set_current_step (r : run) (c : option string) : run :=
  mkRun (run_id r) (job r) (status r) (steps r) c (started_at r)
        (finished_at r) (duration_s r).

Definition set_finished_at (r : run) (t : option Z) : run :=
  mkRun (run_id r) (job r) (status r) (steps r) (current_step r) (started_at r)
        t (duration_s r).

Definition set_duration_s (r : run) (d : option Z) : run :=
  mkRun (run_id r) (job r) (status r) (steps r) (current_step r) (started_at r)
        (finished_at r) d.

(** What one call of [_write_log] adds to a log file: the instant printed
    between brackets and the text after it.  Every text the engine writes
    ends in a non-blank character, so the [rstrip] of [_write_log] leaves it
    as it is.  The text is written as it is: if it holds a line break (a job
    name can), the record takes more than one line of the file. *)
Record log_line : Type := mkLine {
  line_ts : Z;
  line_text : string
}.

(** The persisted state: [builds.json], [history.json], and the log files as
    the sequence of appends, each tagged with the run whose file it went to. *)
Record world : Type := mkWorld {
  builds : list run;
  history : list run;
  logs : list (string * log_line)
}.

(** ** Pipeline catalog *)

Definition PIPELINE : list (string * list string) :=
  [ ("app-ci",
     ["checkout"; "install-deps"; "lint"; "unit-tests"; "build-artifact";
      "deploy-staging"]);
    ("api-ci",
     ["checkout"; "install-deps"; "unit-tests"; "integration-tests";
      "security-scan"; "docker-build"; "deploy-prod"]) ].

Definition STEP_TIME : list (string * (float * float)) :=
  [ ("checkout", (ratio 4 10, ratio 9 10));
    ("install-deps", (ratio 8 10, ratio 16 10));
    ("lint", (ratio 6 10, ratio 14 10));
    ("unit-tests", (ratio 10 10, ratio 25 10));
    ("integration-tests", (ratio 13 10, ratio 30 10));
    ("security-scan", (ratio 10 10, ratio 28 10));
    ("build-artifact", (ratio 8 10, ratio 18 10));
    ("docker-build", (ratio 12 10, ratio 32 10));
    ("deploy-staging", (ratio 9 10, ratio 20 10));
    ("deploy-prod", (ratio 12 10, ratio 26 10)) ].

Definition STEP_FAIL_PROB : list (string * float) :=
  [ ("checkout", ratio 1 100);
    ("install-deps", ratio 4 100);
    ("lint", ratio 10 100);
    ("unit-tests", ratio 12 100);
    ("integration-tests", ratio 18 100);
    ("security-scan", ratio 22 100);
    ("build-artifact", ratio 5 100);
    ("docker-build", ratio 8 100);
    ("deploy-staging", ratio 10 100);
    ("deploy-prod", ratio 16 100) ].

(** [d.get(k, default)] on a dict literal with distinct keys. *)
Fixpoint dict_get {A : Type} (d : list (string * A)) (k : string) (default : A) : A :=
  match d with
  | [] => default
  | (k', v) :: d' => if String.eqb k' k then v else dict_get d' k default
  end.

Definition mem_key {A : Type} (d : list (string * A)) (k : string) : bool :=
  existsb (fun kv => String.eqb (fst kv) k) d.

(** ** Persistence port *)

Definition set_builds (w : world) (b : list run) : world :=
  mkWorld b (history w) (logs w).

Definition set_history (w : world) (h : list run) : world :=
  mkWorld (builds w) h (logs w).

(** [_append_history]: load the history, append the entry, save. *)
Definition _append_history (entry : run) (w : world) : world :=
  let hist := history w in
  let hist := hist ++ [entry] in
  set_history w hist.

(** [_write_log], when the call returns: one more record at the end of the
    run's file.  The call raises instead, and writes nothing, when the text
    cannot be encoded; [write_raises] tells when. *)
Definition _write_log (rid : string) (line : log_line) (w : world) : world :=
  mkWorld (builds w) (history w) (logs w ++ [(rid, line)]).

(** [_save_current_snapshot]: drop the entries carrying the run's id, put the
    run in front, keep the first 100. *)
Definition _save_current_snapshot (r : run) (w : world) : world :=
  let curr := builds w in
  let curr := filter (fun x => negb (String.eqb (run_id x) (run_id r))) curr in
  let curr := r :: curr in
  set_builds w (firstn 100 curr).

(** The current-runs lists the program can build: it starts from the empty
    list (bootstrap and reset write [[]]) and only [_save_current_snapshot]
    writes it afterwards. *)
Inductive reachable_builds : list run -> Prop :=
| reach_empty : reachable_builds []
| reach_save (r : run) (w : world) :
    reachable_builds (builds w) ->
    reachable_builds (builds (_save_current_snapshot r w)).

(** ** Step simulator *)

Definition string_of_Z (z : Z) : string :=
  DecimalString.NilZero.string_of_int (Z.to_int z).

(** [random.randint(a, b)] from a raw draw [k]. *)
Definition randint (a b k : Z) : Z := a + k mod (b - a + 1).

(** [random.choice(xs)] from a raw draw [k]. *)
Definition choice (xs : list Z) (k : Z) : Z :=
  nth (Z.to_nat (k mod Z.of_nat (List.length xs))) xs 0.

Definition _simulate_step_output (step : string) (k : Z) : string :=
  if String.eqb step "lint" then "Lint: flake8 passed (0 errors)"
  else if String.eqb step "unit-tests" then
    "Unit tests: " ++ string_of_Z (randint 80 220 k) ++ " passed"
  else if String.eqb step "integration-tests" then
    "Integration tests: " ++ string_of_Z (randint 25 90 k) ++ " passed"
  else if String.eqb step "security-scan" then
    let vulns := choice [0; 0; 1; 2; 3] k in
    "Security scan: found " ++ string_of_Z vulns
      ++ " issues (sev: low/med/high mixed)"
  else if String.eqb step "docker-build" then
    "Docker build: image tagged 'app:latest'"
  else if String.prefix "deploy" step then
    "Deploy: rollout completed, healthcheck OK"
  else if String.eqb step "install-deps" then
    "Dependencies installed successfully"
  else if String.eqb step "checkout" then "Checked out repository"
  else if String.eqb step "build-artifact" then
    "Build artifact created: dist/app.zip"
  else "Step completed".

(** ** Run engine *)

(** The environment of one engine thread: [clock n] is the system clock, in
    microseconds, at the thread's [n]-th reading of it; the three draws are
    the random bits used for step [i]'s sleep, its output and its failure
    roll. *)
Record env : Type := mkEnv {
  clock : nat -> Z;
  sleep_draw : nat -> Z;
  out_draw : nat -> Z;
  fail_draw : nat -> Z
}.

(** [_utcnow_iso()] prints the clock with [timespec="seconds"], which drops
    the microseconds. *)
Definition _utcnow_iso (e : env) (tick : nat) : Z :=
  clock e tick / 1000000 * 1000000.

(** [int(time.time() - start)], with [time.time()] taken as the exact
    microsecond reading (the binary rounding of the two readings is not
    modelled). *)
Definition elapsed_s (e : env) (tick : nat) (start : Z) : Z :=
  Z.quot (clock e tick - start) 1000000.

(** What the engine does to the outside, in order. *)
Inductive effect : Type :=
| WriteLog (rid : string) (line : log_line)
| SaveSnapshot (r : run)
| AppendHistory (r : run)
| Sleep (secs : float).

Definition perform (w : world) (ef : effect) : world :=
  match ef with
  | WriteLog rid line => _write_log rid line w
  | SaveSnapshot r => _save_current_snapshot r w
  | AppendHistory r => _append_history r w
  | Sleep _ => w
  end.

Definition perform_all (w : world) (efs : list effect) : world :=
  fold_left perform efs w.

Definition step_failed (e : env) (i : nat) (step : string) : bool :=
  let fail_prob := dict_get STEP_FAIL_PROB step (ratio 10 100) in
  flt (random53 (fail_draw e i)) fail_prob.

Definition step_sleep (e : env) (i : nat) (step : string) : float :=
  let '(tmin, tmax) := dict_get STEP_TIME step (ratio 8 10, ratio 18 10) in
  uniform tmin tmax (sleep_draw e i).

(** The [for] loop of [_simulate_pipeline] from step number [i] on, the clock
    having been read [tick] times, and the code after the loop. *)
Fixpoint run_steps (e : env) (start : Z) (r : run) (i tick : nat)
    (todo : list string) : list effect :=
  let rid := run_id r in
  match todo with
  | [] =>
      let r := set_status r "success" in
      let r := set_finished_at r (Some (_utcnow_iso e tick)) in
      let r := set_duration_s r (Some (elapsed_s e (tick + 1) start)) in
      let r := set_current_step r None in
      [ WriteLog rid (mkLine (_utcnow_iso e (tick + 2))
                        ("Run " ++ rid ++ " finished with status=success"));
        SaveSnapshot r;
        AppendHistory r ]
  | step :: rest =>
      let r := set_current_step r (Some step) in
      SaveSnapshot r
      :: WriteLog rid (mkLine (_utcnow_iso e tick)
                         ("Step '" ++ step ++ "' started"))
      :: Sleep (step_sleep e i step)
      :: WriteLog rid (mkLine (_utcnow_iso e (tick + 1))
                         (_simulate_step_output step (out_draw e i)))
      :: if step_failed e i step then
           let r := set_status r "failed" in
           let r := set_finished_at r (Some (_utcnow_iso e (tick + 2))) in
           let r := set_duration_s r (Some (elapsed_s e (tick + 3) start)) in
           let l1 := WriteLog rid (mkLine (_utcnow_iso e (tick + 4))
                                     ("Step '" ++ step ++ "' FAILED")) in
           let l2 := WriteLog rid (mkLine (_utcnow_iso e (tick + 5))
                                     ("Run " ++ rid ++ " finished with status=failed")) in
           let r := set_current_step r None in
           [ l1; l2; SaveSnapshot r; AppendHistory r ]
         else
           WriteLog rid (mkLine (_utcnow_iso e (tick + 2))
                           ("Step '" ++ step ++ "' OK"))
           :: run_steps e start r (S i) (tick + 3) rest
  end.

(** [_simulate_pipeline]: the calls the function makes, in order, when none
    of them raises.  A log write that raises ends the thread on the spot;
    [run_thread] below is the part of this sequence that the thread gets
    through. *)
Definition _simulate_pipeline (e : env) (r : run) : list effect :=
  let rid := run_id r in
  let start := clock e 0 in
  WriteLog rid (mkLine (_utcnow_iso e 1)
                  ("Run " ++ rid ++ " started (job=" ++ job r ++ ")"))
  :: run_steps e start r 0 2 (steps r).

(** ** Starting a run *)

Local Set Warnings "-register-all".

(** The JSON documents a request can carry, as far as [api_run] looks at
    them: [null], text, and objects (numbers, booleans and arrays are left
    out of the model).  An object is its members in the order of the text; on
    a repeated key the parser keeps the last value. *)
Inductive json : Type :=
| JNull
| JStr (s : string)
| JObj (members : list (string * json)).

(** Python's truth value: [None], [""] and [{}] are false. *)
Definition truthy (j : json) : bool :=
  match j with
  | JNull => false
  | JStr s => negb (String.eqb s "")
  | JObj [] => false
  | JObj (_ :: _) => true
  end.

(** [d.get(k)] on the dict parsed from an object; [JNull] stands for the
    [None] of a missing key. *)
Fixpoint obj_get (members : list (string * json)) (k : string) : json :=
  match members with
  | [] => JNull
  | (k', v) :: rest =>
      if mem_key rest k then obj_get rest k
      else if String.eqb k' k then v else JNull
  end.

(** What the handler leaves behind: the run it created, which is handed to
    the engine thread, and the world after the first snapshot.  The response
    carries the run's id. *)
Record started : Type := mkStarted {
  started_run : run;
  started_world : world
}.

(** [api_run].  [body] is the result of [request.get_json(silent=True)]:
    [None] when the request has no readable JSON body.  [new_id] is the
    identifier drawn by [uuid4], [now] the clock in microseconds.  The result
    is [None] when the handler raises: [data.get] on a document that is not a
    dict, or the catalog lookup on an unhashable job. *)
Definition api_run (body : option json) (new_id : string) (now : Z) (w : world)
    : option started :=
  let data :=
    match body with
    | Some j => if truthy j then j else JObj []
    | None => JObj []
    end in
  match data with
  | JObj members =>
      let j := obj_get members "job" in
      match (if truthy j then j else JStr "app-ci") with
      | JStr job =>
          let steps :=
            dict_get PIPELINE job ["checkout"; "unit-tests"; "deploy-staging"] in
          let run :=
            mkRun new_id job "running" steps (hd_error steps)
                  (now / 1000000 * 1000000) None None in
          Some (mkStarted run (_save_current_snapshot run w))
      | _ => None
      end
  | _ => None
  end.

(** ** Statistics *)

(** An exception unwinds the rest of the computation. *)
Notation "x <- e ;; k" :=
  (match e with Some x => k | None => None end)
  (at level 61, e at next level, right associativity).

Record stats : Type := mkStats {
  deploys_today : Z;
  success_rate : pynum;
  cfr : pynum;
  avg_duration : Z;
  mttr_minutes : Z
}.

Definition DAY_US : Z := 86400 * 1000000.
Definition WEEK_US : Z := 7 * DAY_US.

Definition is_some {A : Type} (o : option A) : bool :=
  match o with Some _ => true | None => false end.

(** [datetime.fromisoformat(h["finished_at"].rstrip("Z"))]; the source only
    evaluates it on entries that passed the [h.get("finished_at")] test. *)
Definition finish_time (h : run) : Z :=
  match finished_at h with Some t => t | None => 0 end.

(** [d.date()]: the day number. *)
Definition date_of (t : Z) : Z := t / DAY_US.

(** [sum] of ints. *)
Definition zsum (xs : list Z) : Z := fold_left Z.add xs 0.

Definition len {A : Type} (xs : list A) : Z := Z.of_nat (List.length xs).

(** [min] of a non-empty sequence of instants. *)
Definition zmin (xs : list Z) : Z :=
  match xs with
  | [] => 0
  | x :: xs' => fold_left Z.min xs' x
  end.

Definition finished (hist : list run) : list run :=
  filter (fun h => is_some (finished_at h)) hist.

Definition today (now : Z) (hist : list run) : list run :=
  filter (fun h => date_of (finish_time h) =? date_of now) (finished hist).

Definition last7 (now : Z) (hist : list run) : list run :=
  filter (fun h => now - finish_time h <=? WEEK_US) (finished hist).

(** [sum(1 for h in last7 if h["status"] == s)]. *)
Definition count_status (s : string) (l7 : list run) : Z :=
  zsum (map (fun _ => 1) (filter (fun h => String.eqb (status h) s) l7)).

(** The truthy [duration_s] values: [None] and [0] are both false. *)
Definition durations (l7 : list run) : list Z :=
  flat_map (fun h => match duration_s h with
                     | Some d => if d =? 0 then [] else [d]
                     | None => []
                     end) l7.

(** [avg_dur]. *)
Definition avg_duration_of (l7 : list run) : option Z :=
  let ds := durations l7 in
  match ds with
  | [] => Some 0
  | _ => q <- int_truediv (zsum ds) (len ds) ;; py_int q
  end.

(** The list [later] of the loop body, for the failed entry [h]. *)
Definition later (l7 : list run) (h : run) : list run :=
  let t_fail := finish_time h in
  filter (fun x => String.eqb (job x) (job h)
                   && is_some (finished_at x)
                   && (t_fail <? finish_time x)
                   && String.eqb (status x) "success") l7.

(** [(t_succ - t_fail).total_seconds() / 60]: the microseconds of the
    timedelta divided by [10**6] as ints, then by [60] as floats. *)
Definition minutes_between (t_fail t_succ : Z) : option float :=
  secs <- int_truediv (t_succ - t_fail) 1000000 ;;
  Some (fdiv secs (of_int 60)).

(** The [for h in last7] loop that fills [mttrs]. *)
Fixpoint mttr_loop (l7 todo : list run) (mttrs : list float)
    : option (list float) :=
  match todo with
  | [] => Some mttrs
  | h :: rest =>
      if negb (String.eqb (status h) "failed") then mttr_loop l7 rest mttrs
      else
        let t_fail := finish_time h in
        match later l7 h with
        | [] => mttr_loop l7 rest mttrs
        | (_ :: _) as lat =>
            let t_succ := zmin (map finish_time lat) in
            m <- minutes_between t_fail t_succ ;;
            mttr_loop l7 rest (mttrs ++ [m])
        end
  end.

(** [int(sum(mttrs) / len(mttrs)) if mttrs else 0]. *)
Definition mean_minutes (mttrs : list float) : option Z :=
  match mttrs with
  | [] => Some 0
  | _ => py_int (fdiv (fsum mttrs) (of_int (len mttrs)))
  end.

Definition mttr_of (l7 : list run) : option Z :=
  mttrs <- mttr_loop l7 l7 [] ;; mean_minutes mttrs.

(** [round((n / total) * 100, 1) if total else 0.0]. *)
Definition rate (n total : Z) : option pynum :=
  if total =? 0 then Some (PyFloat zero)
  else
    q <- int_truediv n total ;;
    Some (PyFloat (py_round1 (fmul q (of_int 100)))).

(** [_calc_stats]; [now] is [datetime.utcnow()], [None] an exception.  The
    [sum] of the recovery times is the one of CPython 3.11 and earlier;
    [_calc_stats_on] below takes the summation as a parameter. *)
Definition _calc_stats (now : Z) (w : world) : option stats :=
  let hist := history w in
  match hist with
  | [] => Some (mkStats 0 (PyInt 0) (PyInt 0) 0 0)
  | _ =>
      let l7 := last7 now hist in
      let total := len l7 in
      let failures := count_status "failed" l7 in
      let successes := count_status "success" l7 in
      avg_dur <- avg_duration_of l7 ;;
      mttr <- mttr_of l7 ;;
      sr <- rate successes total ;;
      fr <- rate failures total ;;
      Some (mkStats (len (today now hist)) sr fr avg_dur mttr)
  end.

(** The two ways in which CPython sums floats: by plain additions (up to
    version 3.11) and with a compensation term (from version 3.12 on). *)
Inductive summation : Type :=
| PlainSum
| CompensatedSum.

Definition py_sum (sm : summation) (xs : list float) : float :=
  match sm with
  | PlainSum => fsum xs
  | CompensatedSum => fsum_compensated xs
  end.

(** [int(sum(mttrs) / len(mttrs)) if mttrs else 0] under either summation. *)
Definition mean_minutes_on (sm : summation) (mttrs : list float) : option Z :=
  match mttrs with
  | [] => Some 0
  | _ => py_int (fdiv (py_sum sm mttrs) (of_int (len mttrs)))
  end.

Definition mttr_on (sm : summation) (l7 : list run) : option Z :=
  mttrs <- mttr_loop l7 l7 [] ;; mean_minutes_on sm mttrs.

(** [_calc_stats] under either summation; the sums of ints (the counts and
    the durations) are exact and the same under both. *)
Definition _calc_stats_on (sm : summation) (now : Z) (w : world) : option stats :=
  let hist := history w in
  match hist with
  | [] => Some (mkStats 0 (PyInt 0) (PyInt 0) 0 0)
  | _ =>
      let l7 := last7 now hist in
      let total := len l7 in
      let failures := count_status "failed" l7 in
      let successes := count_status "success" l7 in
      avg_dur <- avg_duration_of l7 ;;
      mttr <- mttr_on sm l7 ;;
      sr <- rate successes total ;;
      fr <- rate failures total ;;
      Some (mkStats (len (today now hist)) sr fr avg_dur mttr)
  end.

(** ** Definitions used to state the properties *)

(** The entries of a list that do not carry [r]'s id. *)
Definition others (r : run) (curr : list run) : list run :=
  filter (fun x => negb (String.eqb (run_id x) (run_id r))) curr.

(** A small run for worked instances. *)
Definition demo_run (rid j st : string) : run :=
  mkRun rid j st ["checkout"] None 0 None None.

(** The runs a sequence of calls appends to the history, the runs it
    snapshots, the log records it writes and the sleeps it takes, each in
    order. *)
Definition appended_runs (efs : list effect) : list run :=
  flat_map (fun ef => match ef with AppendHistory x => [x] | _ => [] end) efs.

Definition snapshots (efs : list effect) : list run :=
  flat_map (fun ef => match ef with SaveSnapshot x => [x] | _ => [] end) efs.

Definition log_lines (efs : list effect) : list (string * log_line) :=
  flat_map (fun ef => match ef with WriteLog rid l => [(rid, l)] | _ => [] end) efs.

Definition sleeps (efs : list effect) : list float :=
  flat_map (fun ef => match ef with Sleep d => [d] | _ => [] end) efs.

(** The steps of [todo], numbered from [i], all pass their failure roll. *)
Fixpoint all_pass (e : env) (i : nat) (todo : list string) : bool :=
  match todo with
  | [] => true
  | step :: rest => negb (step_failed e i step) && all_pass e (S i) rest
  end.

(** The first line of a run's log. *)
Definition start_line (e : env) (r : run) : effect :=
  WriteLog (run_id r)
    (mkLine (_utcnow_iso e 1)
       ("Run " ++ run_id r ++ " started (job=" ++ job r ++ ")")).

(** What one step does before its failure roll. *)
Definition step_begin (e : env) (r : run) (i tick : nat) (step : string)
    : list effect :=
  [ SaveSnapshot (set_current_step r (Some step));
    WriteLog (run_id r) (mkLine (_utcnow_iso e tick)
                           ("Step '" ++ step ++ "' started"));
    Sleep (step_sleep e i step);
    WriteLog (run_id r) (mkLine (_utcnow_iso e (tick + 1))
                           (_simulate_step_output step (out_draw e i))) ].

(** The effects of a sequence of steps that all pass. *)
Fixpoint passed_steps (e : env) (r : run) (i tick : nat) (done : list string)
    : list effect :=
  match done with
  | [] => []
  | step :: rest =>
      step_begin e r i tick step
      ++ WriteLog (run_id r) (mkLine (_utcnow_iso e (tick + 2))
                                ("Step '" ++ step ++ "' OK"))
      :: passed_steps e r (S i) (tick + 3) rest
  end.

(** The record of a run that failed, the clock having been read [tick] times
    when its last step began. *)
Definition failed_run (e : env) (r : run) (tick : nat) : run :=
  mkRun (run_id r) (job r) "failed" (steps r) None (started_at r)
        (Some (_utcnow_iso e (tick + 2)))
        (Some (elapsed_s e (tick + 3) (clock e 0))).

(** The record of a run whose steps all passed. *)
Definition succeeded_run (e : env) (r : run) (tick : nat) : run :=
  mkRun (run_id r) (job r) "success" (steps r) None (started_at r)
        (Some (_utcnow_iso e tick))
        (Some (elapsed_s e (tick + 1) (clock e 0))).

(** What the engine does once a step has failed its roll. *)
Definition failure_block (e : env) (r : run) (tick : nat) (step : string)
    : list effect :=
  [ WriteLog (run_id r) (mkLine (_utcnow_iso e (tick + 4))
                           ("Step '" ++ step ++ "' FAILED"));
    WriteLog (run_id r) (mkLine (_utcnow_iso e (tick + 5))
                           ("Run " ++ run_id r ++ " finished with status=failed"));
    SaveSnapshot (failed_run e r tick);
    AppendHistory (failed_run e r tick) ].

(** What the engine does after the last step has passed. *)
Definition success_block (e : env) (r : run) (tick : nat) : list effect :=
  [ WriteLog (run_id r) (mkLine (_utcnow_iso e (tick + 2))
                           ("Run " ++ run_id r ++ " finished with status=success"));
    SaveSnapshot (succeeded_run e r tick);
    AppendHistory (succeeded_run e r tick) ].

(** The same run with another list of steps, and a trace with the stored list
    of steps replaced in every run it carries. *)
Definition with_steps (r : run) (l : list string) : run :=
  mkRun (run_id r) (job r) (status r) l (current_step r) (started_at r)
        (finished_at r) (duration_s r).

Definition retarget (l : list string) (ef : effect) : effect :=
  match ef with
  | SaveSnapshot x => SaveSnapshot (with_steps x l)
  | AppendHistory x => AppendHistory (with_steps x l)
  | _ => ef
  end.

(** An environment for worked instances: the clock advances by 1.5 s between
    readings, and the failure roll of step number 1 is [0.0], that of every
    other step [0.5]. *)
Definition demo_env : env :=
  mkEnv (fun n => 1700000000000000 + Z.of_nat n * 1500000)
        (fun _ => 0) (fun _ => 7)
        (fun i => if Nat.eqb i 1 then 0 else 2 ^ 52).

Definition demo_start : run :=
  mkRun "ab12cd34" "nightly" "running"
        ["checkout"; "unit-tests"; "deploy-staging"] (Some "checkout")
        1700000000000000 None None.

(** The step sequence used for a job that the catalog does not know. *)
Definition FALLBACK_STEPS : list string :=
  ["checkout"; "unit-tests"; "deploy-staging"].

(** The step sequence the catalog configures for [app-ci]. *)
Definition APP_CI_STEPS : list string :=
  ["checkout"; "install-deps"; "lint"; "unit-tests"; "build-artifact";
   "deploy-staging"].

(** ** The statistics as the specification words them *)

(** The window: the entries that finished, at most seven days before [now]. *)
Definition in_window (now : Z) (h : run) : Prop :=
  exists t, finished_at h = Some t /\ now - t <= WEEK_US.

(** [x] is a successful run of [f]'s job that finished later than [f]. *)
Definition qualifies (f x : run) : bool :=
  String.eqb (status x) "success"
  && String.eqb (job x) (job f)
  && (finish_time f <? finish_time x).

(** The failed runs of [todo] that some run of the window recovers. *)
Definition recoverable_in (win todo : list run) : list run :=
  filter (fun f => String.eqb (status f) "failed" && existsb (qualifies f) win)
         todo.

Definition recoverable (win : list run) : list run := recoverable_in win win.

(** [d] is the recovery time of [f]: the time from [f]'s finish to the finish
    of the earliest qualifying run of the window. *)
Definition is_recovery (win : list run) (f : run) (d : Z) : Prop :=
  exists s,
    In s win /\ qualifies f s = true
    /\ d = finish_time s - finish_time f
    /\ forall s', In s' win -> qualifies f s' = true ->
                  finish_time s <= finish_time s'.

(** The recovery times, in microseconds, of the recoverable runs of [todo],
    in order. *)
Definition recoveries_in (win todo : list run) : list Z :=
  flat_map (fun f =>
              if String.eqb (status f) "failed" then
                match filter (qualifies f) win with
                | [] => []
                | c :: cs => [zmin (map finish_time (c :: cs)) - finish_time f]
                end
              else []) todo.

Definition recoveries (win : list run) : list Z := recoveries_in win win.

(** A duration of [d] microseconds in minutes, as a float. *)
Definition spec_minutes (d : Z) : option float :=
  secs <- int_truediv d 1000000 ;; Some (fdiv secs (of_int 60)).

Fixpoint mapM {A B : Type} (f : A -> option B) (l : list A) : option (list B) :=
  match l with
  | [] => Some []
  | a :: l' => b <- f a ;; bs <- mapM f l' ;; Some (b :: bs)
  end.

(** What [mean_minutes] of the code makes of a list of recovery times. *)
Definition mean_of_recoveries (ds : list Z) : option Z :=
  ms <- mapM spec_minutes ds ;; mean_minutes ms.

(** The integer mean, in minutes, of a list of recovery times given in
    microseconds: their mean in exact arithmetic, cut to whole minutes; [0]
    for the empty list. *)
Definition exact_mean_minutes (ds : list Z) : Z :=
  zsum ds / (60 * 1000000 * len ds).

(** The mean as a float computation: each recovery time in minutes as a
    float, the floats summed and divided by their number, the quotient cut
    to an integer; [0] for the empty list. *)
Definition truncated_float_mean (sm : summation) (ds : list Z) : option Z :=
  match ds with
  | [] => Some 0
  | _ =>
      ms <- mapM spec_minutes ds ;;
      py_int (fdiv (py_sum sm ms) (of_int (len ds)))
  end.

(** The multiples [unit, 2 * unit, ..., N * unit] of a time unit, and the
    lists of one, two or three elements of a list. *)
Definition multiples (unit : Z) (N : nat) : list Z :=
  map (fun i => Z.of_nat i * unit) (seq 1 N).

Definition lists_upto3 {A : Type} (g : list A) : list (list A) :=
  map (fun a => [a]) g
  ++ flat_map (fun a => map (fun b => [a; b]) g) g
  ++ flat_map (fun a => flat_map (fun b => map (fun c => [a; b; c]) g) g) g.

(** [ds] is a list of one to three recovery times, each one of the first
    [N] multiples of [unit]. *)
Definition on_grid (unit : Z) (N : nat) (ds : list Z) : Prop :=
  (1 <= List.length ds <= 3)%nat
  /\ Forall (fun d => exists i, (1 <= i <= N)%nat /\ d = Z.of_nat i * unit) ds.

(** The float mean is the exact integer mean or one less; the float mean is
    the exact integer mean. *)
Definition mean_within_one (sm : summation) (ds : list Z) : bool :=
  match truncated_float_mean sm ds with
  | Some m => (exact_mean_minutes ds - 1 <=? m) && (m <=? exact_mean_minutes ds)
  | None => false
  end.

Definition mean_is_exact (sm : summation) (ds : list Z) : bool :=
  match truncated_float_mean sm ds with
  | Some m => m =? exact_mean_minutes ds
  | None => false
  end.

(** A check under both summations on every list of a collection. *)
Definition check_all (p : summation -> list Z -> bool) (ls : list (list Z)) : bool :=
  forallb (fun ds => p PlainSum ds && p CompensatedSum ds) ls.

(** The [duration_s] values that are present, zero or not. *)
Definition spec_durations (win : list run) : list Z :=
  flat_map (fun h => match duration_s h with Some d => [d] | None => [] end) win.

(** The integer mean of the durations that are present; [0] if none is. *)
Definition spec_avg_duration (win : list run) : option Z :=
  match spec_durations win with
  | [] => Some 0
  | ds => q <- int_truediv (zsum ds) (len ds) ;; py_int q
  end.

(** The number of entries of the window with status [s]. *)
Definition spec_count (s : string) (win : list run) : Z :=
  len (filter (fun h => String.eqb (status h) s) win).

(** [n] out of [total] as a percentage rounded to one decimal; [0.0] when
    [total] is [0]. *)
Definition spec_percent (n total : Z) : float :=
  if total =? 0 then zero
  else py_round1 (fmul (ratio n total) (of_int 100)).

(** A finished run for worked instances: job, status, finish time in
    microseconds, duration in seconds. *)
Definition demo_entry (rid j st : string) (t d : Z) : run :=
  mkRun rid j st ["checkout"] None (t - d * 1000000) (Some t) (Some d).

Definition demo_now : Z := 1700000600000000.
Definition demo_t0 : Z := 1700000000000000.

(** Five minutes, in microseconds. *)
Definition FIVE_MINUTES : Z := 5 * 60 * 1000000.

(** A history for worked instances: a run that fails within its first second
    and the run of the same job that succeeds five minutes later. *)
Definition demo_history : list run :=
  [ demo_entry "a1" "app-ci" "failed" demo_t0 0;
    demo_entry "b2" "app-ci" "success" (demo_t0 + FIVE_MINUTES) 10 ].

(** One second and one minute, in microseconds. *)
Definition SECOND : Z := 1000000.
Definition MINUTE : Z := 60 * SECOND.

(** A history of one job in which three failures are each followed by a
    success, after 9, 131 and 40 seconds: three minutes of recovery in all. *)
Definition uneven_history : list run :=
  [ demo_entry "f1" "app-ci" "failed" demo_t0 3;
    demo_entry "s1" "app-ci" "success" (demo_t0 + 9 * SECOND) 3;
    demo_entry "f2" "app-ci" "failed" (demo_t0 + 10 * SECOND) 3;
    demo_entry "s2" "app-ci" "success" (demo_t0 + 141 * SECOND) 3;
    demo_entry "f3" "app-ci" "failed" (demo_t0 + 150 * SECOND) 3;
    demo_entry "s3" "app-ci" "success" (demo_t0 + 190 * SECOND) 3 ].

(** Equality of floats as data. *)
Definition float_eqb (x y : float) : bool :=
  match x, y with
  | S754_zero s, S754_zero s' => Bool.eqb s s'
  | S754_infinity s, S754_infinity s' => Bool.eqb s s'
  | S754_nan, S754_nan => true
  | S754_finite s m e, S754_finite s' m' e' =>
      Bool.eqb s s' && Pos.eqb m m' && Z.eqb e e'
  | _, _ => false
  end.

(** [x] is the percentage [100 * n / total] rounded to one decimal: the float
    written [k / 10] for an integer [k] at most one half away from
    [1000 * n / total]. *)
Definition one_decimal_of (n total : Z) (x : float) : Prop :=
  exists k, x = ratio k 10 /\ 2 * Z.abs (k * total - 1000 * n) <= total.

Definition one_decimal_check (n total : Z) : bool :=
  let k0 := 1000 * n / total in
  existsb (fun k => float_eqb (spec_percent n total) (ratio k 10)
                    && (2 * Z.abs (k * total - 1000 * n) <=? total))
          [k0; k0 + 1].

(** The check on every part of every whole up to [N]. *)
Definition one_decimal_upto (N : nat) : bool :=
  forallb (fun t => forallb (fun n => one_decimal_check (Z.of_nat n) (Z.of_nat t))
                            (seq 0 (S t)))
          (seq 1 N).

(** ** The rest of the command and query surface *)

(** The records of the run's log file, one for each call of [_write_log]
    that wrote to it, in order ([api_logs] returns them as one text, each
    followed by a line break); a file that was never written has none. *)
Definition log_records (rid : string) (w : world) : list log_line :=
  map snd (filter (fun p => String.eqb (fst p) rid) (logs w)).

(** [api_reset]: both documents are overwritten with [[]] and every log file
    is removed; a file whose removal raises is skipped and stays
    ([stuck rid] tells that the file of [rid] cannot be removed). *)
Definition api_reset (stuck : string -> bool) (w : world) : world :=
  mkWorld [] [] (filter (fun p => stuck (fst p)) (logs w)).

(** A run as [api_run] hands it to the engine: running, not finished. *)
Definition fresh (r : run) : Prop :=
  status r = "running" /\ finished_at r = None /\ duration_s r = None.



(** The merges of two sequences of effects that keep the order of each. *)
Inductive interleave {A : Type} : list A -> list A -> list A -> Prop :=
| interleave_nil : interleave [] [] []
| interleave_left (a : A) (l1 l2 l : list A) :
    interleave l1 l2 l -> interleave (a :: l1) l2 (a :: l)
| interleave_right (a : A) (l1 l2 l : list A) :
    interleave l1 l2 l -> interleave l1 (a :: l2) (a :: l).

(** A second run for worked instances. *)
Definition demo_start2 : run :=
  mkRun "ef56ab78" "api-ci" "running"
        ["checkout"; "deploy-prod"] (Some "checkout")
        1700000000000000 None None.

(** A float that is not negative (a NaN, on which [int] raises, counts), and
    a float whose sign bit is clear. *)
Definition nonneg (x : float) : Prop :=
  match x with
  | S754_finite s _ _ | S754_infinity s => s = false
  | S754_zero _ | S754_nan => True
  end.

Definition sign_clear (x : float) : Prop :=
  match x with
  | S754_zero s | S754_finite s _ _ | S754_infinity s => s = false
  | S754_nan => True
  end.

(** A history of three entries of which the last finished eight days before
    [demo_now]. *)
Definition demo_old_entry : run :=
  demo_entry "c3" "app-ci" "failed" (demo_t0 - 8 * DAY_US) 30.

(** ** Log writes that raise *)

(** The first two bytes of a lone surrogate: ED, then A0..BF. *)
Definition surrogate_lead (c d : ascii) : bool :=
  (nat_of_ascii c =? 237)%nat
  && (160 <=? nat_of_ascii d)%nat && (nat_of_ascii d <=? 191)%nat.

(** [text.encode("utf-8")] succeeds: the text holds no lone surrogate. *)
Fixpoint encodable (s : string) : bool :=
  match s with
  | EmptyString => true
  | String c s' =>
      match s' with
      | EmptyString => true
      | String d _ => negb (surrogate_lead c d) && encodable s'
      end
  end.

(** A text of ASCII characters only. *)
Fixpoint ascii_only (s : string) : bool :=
  match s with
  | EmptyString => true
  | String c s' => (nat_of_ascii c <? 128)%nat && ascii_only s'
  end.

(** An id as [api_run] makes it: the first 8 hexadecimal digits of a UUID.
    The log file of such an id, [logs/<id>.log], can always be named. *)
Definition hex_digit (c : ascii) : bool :=
  existsb (Ascii.eqb c) (list_ascii_of_string "0123456789abcdef").

Definition hex8 (s : string) : bool :=
  (String.length s =? 8)%nat && forallb hex_digit (list_ascii_of_string s).

(** The call raises: it is a log write whose text cannot be encoded (the
    file is opened with [encoding="utf-8"], and [f.write] raises
    [UnicodeEncodeError] before anything is written; a file that the call
    has just created is left empty, which reads as a file with no
    record). *)
Definition write_raises (ef : effect) : bool :=
  match ef with
  | WriteLog _ line => negb (encodable (line_text line))
  | _ => false
  end.

(** The calls that are completed when a sequence of calls is attempted: all
    those before the first that raises. *)
Fixpoint completed (efs : list effect) : list effect :=
  match efs with
  | [] => []
  | ef :: rest => if write_raises ef then [] else ef :: completed rest
  end.

(** None of the calls raises. *)
Definition no_raise (efs : list effect) : bool :=
  forallb (fun ef => negb (write_raises ef)) efs.

(** No log write of the run raises on its text. *)
Definition writes_encodable (e : env) (r : run) : bool :=
  no_raise (_simulate_pipeline e r).

(** The thread started by [api_run], for a run with an id as [api_run] makes
    it: what [_simulate_pipeline] gets done before it returns or an uncaught
    exception ends the thread. *)
Definition run_thread (e : env) (r : run) : list effect :=
  completed (_simulate_pipeline e r).

(** The log writes of the run all succeed: its file can be named and every
    text can be encoded. *)
Definition writes_succeed (e : env) (r : run) : bool :=
  hex8 (run_id r) && writes_encodable e r.

(** The job name made of the lone surrogate U+D800, as the JSON text
    ["\ud800"] is parsed. *)
Definition lone_surrogate : string :=
  String (ascii_of_nat 237) (String (ascii_of_nat 160)
    (String (ascii_of_nat 128) EmptyString)).

(** The request [{"job": "\ud800"}]. *)
Definition lone_surrogate_request : option json :=
  Some (JObj [("job", JStr lone_surrogate)]).

(** The run that [api_run] creates for this request, with the id
    [0a1b2c3d], at [demo_t0]. *)
Definition lone_surrogate_run : run :=
  mkRun "0a1b2c3d" lone_surrogate "running" FALLBACK_STEPS (Some "checkout")
        demo_t0 None None.

(** The environment [demo_env] with every failure roll at [0.5]: all steps
    pass. *)
Definition demo_env_pass : env :=
  mkEnv (clock demo_env) (fun _ => 0) (fun _ => 7) (fun _ => 2 ^ 52).
(** ** The snapshot store *)

Lemma save_current_snapshot_builds (r : run) (w : world) :
  builds (_save_current_snapshot r w) = r :: firstn 99 (others r (builds w)).
Proof. reflexivity. Qed.

Lemma others_In (r : run) (curr : list run) (x : run) :
  In x (others r curr) <-> In x curr /\ run_id x <> run_id r.
Proof.
  unfold others. rewrite filter_In, negb_true_iff.
  split; intros [Hin Hid]; split; trivial.
  - intro E. apply String.eqb_eq in E. congruence.
  - destruct (String.eqb_spec (run_id x) (run_id r)); congruence.
Qed.

Lemma others_ids (r : run) (curr : list run) :
  ~ In (run_id r) (map run_id (others r curr)).
Proof.
  rewrite in_map_iff. intros [x [E Hin]].
  apply others_In in Hin. tauto.
Qed.

Lemma others_NoDup (r : run) (curr : list run) :
  NoDup (map run_id curr) -> NoDup (map run_id (others r curr)).
Proof.
  induction curr as [|x curr IH]; simpl; intros ND; [constructor|].
  inversion_clear ND as [|? ? Hx Hrest].
  destruct (negb (String.eqb (run_id x) (run_id r))); simpl; auto.
  constructor; auto.
  rewrite in_map_iff in *. intros [y [E Hy]]. apply Hx.
  exists y. split; trivial. apply others_In in Hy. tauto.
Qed.

Lemma firstn_In {A : Type} (n : nat) (l : list A) (x : A) :
  In x (firstn n l) -> In x l.
Proof.
  intros H. rewrite <- (firstn_skipn n l). apply in_or_app. now left.
Qed.

Lemma firstn_NoDup {A : Type} (n : nat) (l : list A) :
  NoDup l -> NoDup (firstn n l).
Proof.
  intros ND. rewrite <- (firstn_skipn n l) in ND.
  now apply NoDup_app_remove_r in ND.
Qed.

Lemma kept_fresh (r : run) (curr : list run) (n : nat) :
  ~ In (run_id r) (map run_id (firstn n (others r curr))).
Proof.
  intros Hin. apply (others_ids r curr).
  rewrite in_map_iff in *. destruct Hin as [x [E Hx]].
  exists x. split; trivial. now apply firstn_In in Hx.
Qed.

Lemma kept_NoDup (r : run) (curr : list run) (n : nat) :
  NoDup (map run_id curr) ->
  NoDup (map run_id (r :: firstn n (others r curr))).
Proof.
  intros ND. cbn [map]. constructor; [apply kept_fresh|].
  rewrite <- firstn_map. apply firstn_NoDup. now apply others_NoDup.
Qed.

(** Every list the program builds has pairwise distinct ids and at most 100
    entries. *)
Lemma reachable_builds_distinct (l : list run) :
  reachable_builds l -> NoDup (map run_id l) /\ (List.length l <= 100)%nat.
Proof.
  induction 1 as [|r w _ [IH _]].
  - split; [constructor | simpl; lia].
  - rewrite save_current_snapshot_builds. split.
    + now apply kept_NoDup.
    + cbn [List.length].
      pose proof (firstn_le_length 99 (others r (builds w))). lia.
Qed.

(** C4. Saving a snapshot of [r] into a current-runs list whose entries have
    pairwise distinct ids leaves a list of at most 100 entries, again with
    pairwise distinct ids, whose first entry is [r]; no other entry carries
    [r]'s id, so an earlier snapshot of the same run is gone. *)
Theorem save_current_snapshot_bounded_distinct (r : run) (w : world) :
  NoDup (map run_id (builds w)) ->
  let curr := builds (_save_current_snapshot r w) in
  (List.length curr <= 100)%nat
  /\ NoDup (map run_id curr)
  /\ hd_error curr = Some r
  /\ (forall i x, nth_error curr i = Some x -> run_id x = run_id r ->
                  i = 0%nat /\ x = r).
Proof.
  intros ND curr. subst curr. rewrite save_current_snapshot_builds.
  split; [|split; [|split]].
  - cbn [List.length].
    pose proof (firstn_le_length 99 (others r (builds w))). lia.
  - now apply kept_NoDup.
  - reflexivity.
  - intros [|i] x Hnth Hid; cbn [nth_error] in Hnth.
    + split; congruence.
    + exfalso. apply (kept_fresh r (builds w) 99). rewrite <- Hid.
      apply in_map. eapply nth_error_In; eauto.
Qed.

Lemma save_current_snapshot_bounded_distinct_witness :
  let w := mkWorld [demo_run "a1" "app-ci" "running";
                    demo_run "b2" "api-ci" "success"] [] [] in
  let r := demo_run "a1" "app-ci" "success" in
  NoDup (map run_id (builds w))
  /\ builds (_save_current_snapshot r w) = [r; demo_run "b2" "api-ci" "success"]
  /\ NoDup (map run_id (builds (_save_current_snapshot r w))).
Proof.
  intros w r.
  assert (ND : NoDup (map run_id (builds w))).
  { simpl. repeat constructor; simpl; intuition discriminate. }
  split; [exact ND|]. split; [reflexivity|].
  exact (proj1 (proj2 (save_current_snapshot_bounded_distinct r w ND))).
Defined.

(** C9. Saving a snapshot of [r] keeps, behind [r], the entries of other
    runs exactly as they were and in the order they had, up to the 99th; an
    entry of the old list is missing from the new one only if it carries
    [r]'s id or stood behind 99 entries of other runs. *)
Theorem save_current_snapshot_frame (r : run) (w : world) :
  let curr := builds (_save_current_snapshot r w) in
  exists evicted,
    others r (builds w) = tl curr ++ evicted
    /\ curr = r :: tl curr
    /\ (evicted <> [] -> List.length (tl curr) = 99%nat)
    /\ (forall x, In x (builds w) ->
          run_id x = run_id r \/ In x (tl curr) \/ In x evicted)
    /\ (forall x, In x (tl curr) -> In x (builds w) /\ run_id x <> run_id r).
Proof.
  intros curr. subst curr. rewrite save_current_snapshot_builds. cbn [tl].
  exists (skipn 99 (others r (builds w))).
  split; [now rewrite firstn_skipn|]. split; [reflexivity|]. split; [|split].
  - intros Hne. apply firstn_length_le.
    destruct (Nat.le_gt_cases 99 (List.length (others r (builds w)))); trivial.
    exfalso. apply Hne. apply skipn_all2. lia.
  - intros x Hin.
    destruct (String.eqb_spec (run_id x) (run_id r)) as [E|E]; [now left|right].
    apply in_app_or. rewrite firstn_skipn. apply others_In. now split.
  - intros x Hin. apply firstn_In in Hin. now apply others_In in Hin.
Qed.

(** ** The run engine *)

Lemma run_steps_current_step (e : env) (start : Z) (r : run)
    (c : option string) (i tick : nat) (todo : list string) :
  run_steps e start (set_current_step r c) i tick todo
  = run_steps e start r i tick todo.
Proof. destruct todo; reflexivity. Qed.

Lemma run_steps_done (e : env) (r : run) (i tick : nat) :
  run_steps e (clock e 0) r i tick [] = success_block e r tick.
Proof. reflexivity. Qed.

Lemma run_steps_step (e : env) (r : run) (i tick : nat) (step : string)
    (rest : list string) :
  run_steps e (clock e 0) r i tick (step :: rest)
  = step_begin e r i tick step
    ++ if step_failed e i step then failure_block e r tick step
       else WriteLog (run_id r) (mkLine (_utcnow_iso e (tick + 2))
                                   ("Step '" ++ step ++ "' OK"))
            :: run_steps e (clock e 0) r (S i) (tick + 3) rest.
Proof.
  cbn [run_steps step_begin app].
  destruct (step_failed e i step); [reflexivity|].
  now rewrite run_steps_current_step.
Qed.

Lemma run_steps_passed (e : env) (r : run) (pre rest : list string) :
  forall i tick,
    all_pass e i pre = true ->
    run_steps e (clock e 0) r i tick (pre ++ rest)
    = passed_steps e r i tick pre
      ++ run_steps e (clock e 0) r (i + List.length pre)
           (tick + 3 * List.length pre) rest.
Proof.
  induction pre as [|step pre IH]; intros i tick Hpass.
  - cbn [app passed_steps List.length]. now rewrite !Nat.add_0_r.
  - cbn [all_pass] in Hpass. apply andb_true_iff in Hpass as [Hs Hpre].
    apply negb_true_iff in Hs.
    rewrite <- app_comm_cons, run_steps_step, Hs, (IH _ _ Hpre).
    cbn [passed_steps List.length]. rewrite <- app_assoc. cbn [app].
    replace (S i + List.length pre)%nat with (i + S (List.length pre))%nat by lia.
    replace (tick + 3 + 3 * List.length pre)%nat
      with (tick + 3 * S (List.length pre))%nat by lia.
    reflexivity.
Qed.

Lemma simulate_pipeline_unfold (e : env) (r : run) :
  _simulate_pipeline e r = start_line e r :: run_steps e (clock e 0) r 0 2 (steps r).
Proof. reflexivity. Qed.

(** Counting the effects of the passed steps. *)
Lemma passed_steps_snapshots (e : env) (r : run) (pre : list string) :
  forall i tick,
    map current_step (snapshots (passed_steps e r i tick pre)) = map Some pre.
Proof.
  induction pre as [|step pre IH]; intros i tick; [reflexivity|].
  cbn [passed_steps step_begin app snapshots flat_map map]. cbn [snapshots] in IH.
  now rewrite IH.
Qed.

Lemma passed_steps_appended (e : env) (r : run) (pre : list string) :
  forall i tick, appended_runs (passed_steps e r i tick pre) = [].
Proof.
  induction pre as [|step pre IH]; intros i tick; [reflexivity|].
  cbn [passed_steps step_begin app appended_runs flat_map].
  apply IH.
Qed.

Lemma passed_steps_status (e : env) (r : run) (pre : list string) :
  forall i tick,
    Forall (fun x => status x = status r /\ finished_at x = finished_at r
                     /\ duration_s x = duration_s r)
           (snapshots (passed_steps e r i tick pre)).
Proof.
  induction pre as [|step pre IH]; intros i tick; [constructor|].
  cbn [passed_steps step_begin app snapshots flat_map]. constructor.
  - now cbn.
  - apply IH.
Qed.

Lemma passed_steps_counts (e : env) (r : run) (pre : list string) :
  forall i tick,
    List.length (log_lines (passed_steps e r i tick pre)) = (3 * List.length pre)%nat
    /\ List.length (sleeps (passed_steps e r i tick pre)) = List.length pre.
Proof.
  induction pre as [|step pre IH]; intros i tick; [now split|].
  destruct (IH (S i) (tick + 3)%nat) as [Hl Hs].
  unfold log_lines, sleeps in *.
  cbn [passed_steps step_begin app flat_map List.length].
  rewrite Hl, Hs. split; lia.
Qed.

Lemma run_steps_with_steps (e : env) (start : Z) (l : list string)
    (todo : list string) :
  forall r i tick,
    run_steps e start r i tick todo
    = map (retarget (steps r)) (run_steps e start (with_steps r l) i tick todo).
Proof.
  induction todo as [|step todo IH]; intros r i tick.
  - reflexivity.
  - cbn [run_steps map retarget].
    destruct (step_failed e i step); [reflexivity|].
    cbn [map retarget]. do 5 f_equal.
    rewrite (IH (set_current_step r (Some step))). reflexivity.
Qed.

Lemma appended_runs_app (l1 l2 : list effect) :
  appended_runs (l1 ++ l2) = appended_runs l1 ++ appended_runs l2.
Proof. apply flat_map_app. Qed.

Lemma snapshots_app (l1 l2 : list effect) :
  snapshots (l1 ++ l2) = snapshots l1 ++ snapshots l2.
Proof. apply flat_map_app. Qed.

Lemma log_lines_app (l1 l2 : list effect) :
  log_lines (l1 ++ l2) = log_lines l1 ++ log_lines l2.
Proof. apply flat_map_app. Qed.

Lemma sleeps_app (l1 l2 : list effect) :
  sleeps (l1 ++ l2) = sleeps l1 ++ sleeps l2.
Proof. apply flat_map_app. Qed.

Lemma appended_runs_cons (ef : effect) (l : list effect) :
  appended_runs (ef :: l) = appended_runs [ef] ++ appended_runs l.
Proof. exact (appended_runs_app [ef] l). Qed.

Lemma appended_runs_firstn (l : list effect) :
  appended_runs l = [] -> forall n, appended_runs (firstn n l) = [].
Proof.
  induction l as [|ef l IH]; intros H n.
  - now rewrite firstn_nil.
  - destruct n as [|n]; [reflexivity|].
    rewrite appended_runs_cons in H. apply app_eq_nil in H as [Hef Hl].
    cbn [firstn]. rewrite appended_runs_cons, Hef, IH; trivial.
Qed.

(** The history after a trace is the history before it followed by the runs
    the trace appends. *)
Lemma history_perform_all (efs : list effect) :
  forall w, history (perform_all w efs) = history w ++ appended_runs efs.
Proof.
  unfold perform_all.
  induction efs as [|ef efs IH]; intros w.
  - cbn. now rewrite app_nil_r.
  - cbn [fold_left]. rewrite IH.
    rewrite (appended_runs_cons ef efs), app_assoc. f_equal.
    destruct ef; cbn; now rewrite ?app_nil_r.
Qed.

Lemma log_lines_cons (ef : effect) (l : list effect) :
  log_lines (ef :: l) = log_lines [ef] ++ log_lines l.
Proof. exact (log_lines_app [ef] l). Qed.

(** The log files after a trace are the log files before it followed by the
    lines the trace writes. *)
Lemma logs_perform_all (efs : list effect) :
  forall w, logs (perform_all w efs) = logs w ++ log_lines efs.
Proof.
  unfold perform_all.
  induction efs as [|ef efs IH]; intros w.
  - cbn. now rewrite app_nil_r.
  - cbn [fold_left]. rewrite IH, (log_lines_cons ef efs), app_assoc. f_equal.
    destruct ef; cbn; now rewrite ?app_nil_r.
Qed.

(** After a trace that ends with a snapshot and an append of [final], the
    current-runs list begins with [final]. *)
Lemma builds_perform_all_ends (w : world) (body : list effect) (final : run) :
  hd_error (builds (perform_all w (body ++ [SaveSnapshot final; AppendHistory final])))
  = Some final.
Proof. unfold perform_all. now rewrite fold_left_app. Qed.

(** Whatever the rolls, the loop ends with one snapshot and one append of the
    same terminal record, and appends nothing before. *)
Lemma run_steps_ends (e : env) (todo : list string) :
  forall r i tick,
  exists body final,
    run_steps e (clock e 0) r i tick todo
    = body ++ [SaveSnapshot final; AppendHistory final]
    /\ appended_runs body = []
    /\ run_id final = run_id r
    /\ (status final = "success" \/ status final = "failed")
    /\ Forall (fun x => status x = status r) (snapshots body).
Proof.
  induction todo as [|step todo IH]; intros r i tick.
  - rewrite run_steps_done.
    exists [WriteLog (run_id r)
              (mkLine (_utcnow_iso e (tick + 2))
                 ("Run " ++ run_id r ++ " finished with status=success"))],
           (succeeded_run e r tick).
    split; [reflexivity|]. split; [reflexivity|]. split; [reflexivity|].
    split; [now left|]. constructor.
  - rewrite run_steps_step. destruct (step_failed e i step).
    + exists (step_begin e r i tick step
              ++ [WriteLog (run_id r) (mkLine (_utcnow_iso e (tick + 4))
                                         ("Step '" ++ step ++ "' FAILED"));
                  WriteLog (run_id r) (mkLine (_utcnow_iso e (tick + 5))
                                         ("Run " ++ run_id r
                                          ++ " finished with status=failed"))]),
             (failed_run e r tick).
      split; [now rewrite <- app_assoc|].
      split; [reflexivity|]. split; [reflexivity|]. split; [now right|].
      cbn. repeat constructor.
    + destruct (IH r (S i) (tick + 3)%nat) as (body & final & E & Ha & Hid & Hst & Hsn).
      exists (step_begin e r i tick step
              ++ WriteLog (run_id r) (mkLine (_utcnow_iso e (tick + 2))
                                        ("Step '" ++ step ++ "' OK")) :: body),
             final.
      rewrite E. split; [now rewrite <- app_assoc|].
      split; [exact Ha|]. split; [exact Hid|]. split; [exact Hst|].
      cbn. constructor; auto.
Qed.

(** The calls of [_simulate_pipeline], when none raises, end with the
    snapshot and the append of one record whose status is [success] or
    [failed]; nothing before them appends, every earlier snapshot still
    carries the status the run started with, and the history stays as it was
    until that last call. *)
Lemma trace_appends_once (e : env) (r : run) (w : world) :
  let trace := _simulate_pipeline e r in
  exists body final,
    trace = body ++ [SaveSnapshot final; AppendHistory final]
    /\ appended_runs body = []
    /\ run_id final = run_id r
    /\ (status final = "success" \/ status final = "failed")
    /\ Forall (fun x => status x = status r) (snapshots body)
    /\ (forall n, (n < List.length trace)%nat ->
          history (perform_all w (firstn n trace)) = history w)
    /\ history (perform_all w trace) = history w ++ [final]
    /\ hd_error (builds (perform_all w trace)) = Some final.
Proof.
  intros trace. subst trace. rewrite simulate_pipeline_unfold.
  destruct (run_steps_ends e (steps r) r 0%nat 2%nat)
    as (body & final & E & Ha & Hid & Hst & Hsn).
  exists (start_line e r :: body), final. rewrite E.
  split; [reflexivity|]. split; [exact Ha|]. split; [exact Hid|].
  split; [exact Hst|]. split; [exact Hsn|].
  assert (Ha' : appended_runs (start_line e r :: body) = []) by exact Ha.
  change (start_line e r :: body ++ [SaveSnapshot final; AppendHistory final])
    with ((start_line e r :: body) ++ [SaveSnapshot final; AppendHistory final]).
  set (pre := start_line e r :: body) in *.
  split.
  - intros n Hn. rewrite length_app in Hn. cbn [List.length] in Hn.
    rewrite history_perform_all, firstn_app, appended_runs_app.
    rewrite (appended_runs_firstn _ Ha').
    destruct (n - List.length pre)%nat as [|[|k]] eqn:Ek.
    + now rewrite app_nil_r.
    + now rewrite app_nil_r.
    + lia.
  - split; [|apply builds_perform_all_ends].
    rewrite history_perform_all, appended_runs_app, Ha'. reflexivity.
Qed.

(** C2. When the step at position [k] is the first to fail its roll, the
    trace is the start line, the effects of the [k] passed steps, the
    beginning of the failing step and the failure block, and nothing else:
    the run is recorded as failed with its finish time and duration set and
    no current step, snapshotted and appended to the history; the trace is
    the one of the same run cut after the failing step, so the steps behind
    it take no snapshot, write no line and sleep no time. *)
Theorem simulate_pipeline_stops_at_failure (e : env) (r : run)
    (pre : list string) (s : string) (post : list string) :
  steps r = pre ++ s :: post ->
  all_pass e 0 pre = true ->
  step_failed e (List.length pre) s = true ->
  let k := List.length pre in
  let tick := (2 + 3 * k)%nat in
  let final := failed_run e r tick in
  let trace := _simulate_pipeline e r in
  trace = start_line e r :: passed_steps e r 0 2 pre
          ++ step_begin e r k tick s ++ failure_block e r tick s
  /\ (status final = "failed" /\ current_step final = None
      /\ finished_at final = Some (_utcnow_iso e (tick + 2))
      /\ duration_s final = Some (elapsed_s e (tick + 3) (clock e 0)))
  /\ appended_runs trace = [final]
  /\ trace = map (retarget (steps r))
               (_simulate_pipeline e (with_steps r (pre ++ [s])))
  /\ map current_step (snapshots trace) = map Some (pre ++ [s]) ++ [None]
  /\ List.length (log_lines trace) = (3 * k + 5)%nat
  /\ List.length (sleeps trace) = (k + 1)%nat
  /\ (forall w,
        history (perform_all w trace) = history w ++ [final]
        /\ hd_error (builds (perform_all w trace)) = Some final
        /\ logs (perform_all w trace) = logs w ++ log_lines trace).
Proof.
  intros Hsteps Hpass Hfail k tick final trace.
  assert (E : trace = start_line e r :: passed_steps e r 0 2 pre
                      ++ step_begin e r k tick s ++ failure_block e r tick s).
  { subst trace. rewrite simulate_pipeline_unfold, Hsteps.
    rewrite (run_steps_passed e r pre (s :: post) 0 2 Hpass).
    rewrite run_steps_step. cbn [Nat.add]. rewrite Hfail. reflexivity. }
  assert (Ha : appended_runs trace = [final]).
  { rewrite E.
    change (start_line e r :: ?l) with ([start_line e r] ++ l).
    rewrite !appended_runs_app, passed_steps_appended. reflexivity. }
  split; [exact E|]. split; [now repeat split|].
  split; [exact Ha|]. split; [|split; [|split; [|split]]].
  - subst trace. rewrite !simulate_pipeline_unfold.
    change (steps (with_steps r (pre ++ [s]))) with (pre ++ [s]).
    rewrite map_cons.
    change (retarget (steps r) (start_line e (with_steps r (pre ++ [s]))))
      with (start_line e r).
    f_equal.
    rewrite <- (run_steps_with_steps e (clock e 0) (pre ++ [s]) (pre ++ [s]) r 0 2).
    rewrite Hsteps, !(run_steps_passed e r pre _ 0 2 Hpass). f_equal.
    rewrite !run_steps_step. cbn [Nat.add]. now rewrite Hfail.
  - rewrite E.
    change (start_line e r :: ?l) with ([start_line e r] ++ l).
    rewrite !snapshots_app, !map_app, passed_steps_snapshots.
    rewrite <- app_assoc. reflexivity.
  - rewrite E.
    change (start_line e r :: ?l) with ([start_line e r] ++ l).
    rewrite !log_lines_app, !length_app.
    rewrite (proj1 (passed_steps_counts e r pre 0 2)). cbn [List.length]. 
    unfold k. cbn. lia.
  - rewrite E.
    change (start_line e r :: ?l) with ([start_line e r] ++ l).
    rewrite !sleeps_app, !length_app.
    rewrite (proj2 (passed_steps_counts e r pre 0 2)). cbn. unfold k. lia.
  - intros w. split; [|split].
    + now rewrite history_perform_all, Ha.
    + rewrite E.
      change (start_line e r :: passed_steps e r 0 2 pre
              ++ step_begin e r k tick s ++ failure_block e r tick s)
        with ((start_line e r :: passed_steps e r 0 2 pre)
              ++ step_begin e r k tick s ++ failure_block e r tick s).
      unfold failure_block.
      change [?a; ?b; SaveSnapshot ?f; AppendHistory ?f']
        with ([a; b] ++ [SaveSnapshot f; AppendHistory f']).
      rewrite !app_assoc. apply builds_perform_all_ends.
    + apply logs_perform_all.
Qed.

Lemma simulate_pipeline_stops_at_failure_witness :
  steps demo_start = ["checkout"] ++ "unit-tests" :: ["deploy-staging"]
  /\ all_pass demo_env 0 ["checkout"] = true
  /\ step_failed demo_env 1 "unit-tests" = true
  /\ appended_runs (_simulate_pipeline demo_env demo_start)
     = [failed_run demo_env demo_start 5]
  /\ List.length (log_lines (_simulate_pipeline demo_env demo_start)) = 8%nat.
Proof.
  assert (H1 : steps demo_start = ["checkout"] ++ "unit-tests" :: ["deploy-staging"])
    by reflexivity.
  assert (H2 : all_pass demo_env 0 ["checkout"] = true) by (vm_compute; reflexivity).
  assert (H3 : step_failed demo_env (List.length ["checkout"]) "unit-tests" = true)
    by (vm_compute; reflexivity).
  pose proof (simulate_pipeline_stops_at_failure demo_env demo_start
                ["checkout"] "unit-tests" ["deploy-staging"] H1 H2 H3) as T.
  split; [exact H1|]. split; [exact H2|]. split; [exact H3|].
  split; [exact (proj1 (proj2 (proj2 T)))|].
  exact (proj1 (proj2 (proj2 (proj2 (proj2 (proj2 T)))))).
Defined.

(** ** Starting a run *)

Lemma obj_get_missing (members : list (string * json)) (k : string) :
  mem_key members k = false -> obj_get members k = JNull.
Proof.
  induction members as [|[k' v] members IH]; [reflexivity|].
  unfold mem_key in *. cbn [existsb fst obj_get]. intros H.
  apply orb_false_iff in H as [Hk Hrest].
  unfold mem_key. now rewrite Hrest, Hk.
Qed.

Lemma obj_get_nonempty (members : list (string * json)) (k : string) (s : string) :
  obj_get members k = JStr s -> truthy (JObj members) = true.
Proof. destruct members; [discriminate | reflexivity]. Qed.

Lemma dict_get_unknown {A : Type} (d : list (string * A)) (k : string) (a : A) :
  mem_key d k = false -> dict_get d k a = a.
Proof.
  induction d as [|[k' v] d IH]; [reflexivity|].
  unfold mem_key. cbn [existsb fst dict_get]. intros H.
  apply orb_false_iff in H as [Hk Hrest]. rewrite Hk. now apply IH.
Qed.

(** C8. A request naming a job always starts a run.  When the name is a key
    of the catalog the run gets the steps configured for it; when the name is
    not (and is not the empty text, which stands for no name) the run gets
    the three fallback steps. *)
Theorem api_run_never_rejects (members : list (string * json)) (j : string)
    (new_id : string) (now : Z) (w : world) :
  obj_get members "job" = JStr j ->
  exists st,
    api_run (Some (JObj members)) new_id now w = Some st
    /\ run_id (started_run st) = new_id
    /\ status (started_run st) = "running"
    /\ started_world st = _save_current_snapshot (started_run st) w
    /\ (forall l, In (j, l) PIPELINE ->
          job (started_run st) = j /\ steps (started_run st) = l)
    /\ (j <> "" -> mem_key PIPELINE j = false ->
          job (started_run st) = j
          /\ steps (started_run st) = FALLBACK_STEPS
          /\ List.length (steps (started_run st)) = 3%nat).
Proof.
  intros Hjob. unfold api_run.
  rewrite (obj_get_nonempty members "job" j Hjob), Hjob.
  destruct (String.eqb_spec j "") as [->|Hne].
  - cbn [truthy String.eqb negb]. eexists. split; [reflexivity|].
    cbn [started_run started_world run_id status job steps].
    split; [reflexivity|]. split; [reflexivity|]. split; [reflexivity|]. split.
    + intros l [H|[H|[]]]; discriminate.
    + intros H. now contradiction H.
  - assert (Ht : truthy (JStr j) = true).
    { cbn [truthy]. now destruct (String.eqb_spec j ""). }
    rewrite Ht. eexists. split; [reflexivity|].
    cbn [started_run started_world run_id status job steps].
    split; [reflexivity|]. split; [reflexivity|]. split; [reflexivity|]. split.
    + intros l [H|[H|[]]]; injection H as <- <-; now split.
    + intros _ Hunk. rewrite (dict_get_unknown PIPELINE j _ Hunk). now repeat split.
Qed.

Lemma api_run_never_rejects_witness :
  exists st,
    api_run (Some (JObj [("job", JStr "payments-ci")])) "ab12cd34"
      1700000000000000 (mkWorld [] [] []) = Some st
    /\ steps (started_run st) = FALLBACK_STEPS.
Proof.
  destruct (api_run_never_rejects [("job", JStr "payments-ci")] "payments-ci"
              "ab12cd34" 1700000000000000 (mkWorld [] [] []) eq_refl)
    as (st & E & _ & _ & _ & _ & Hunknown).
  exists st. split; [exact E|].
  apply Hunknown; [discriminate | reflexivity].
Defined.

(** C10. A request without a readable body, with a body that has no [job]
    member, or with an empty job name starts a run of [app-ci] with the six
    steps configured for it, not with the fallback steps. *)
Theorem api_run_default_job (body : option json) (new_id : string) (now : Z)
    (w : world) :
  body = None
  \/ (exists members, body = Some (JObj members) /\ mem_key members "job" = false)
  \/ (exists members, body = Some (JObj members)
                      /\ obj_get members "job" = JStr "") ->
  exists st,
    api_run body new_id now w = Some st
    /\ job (started_run st) = "app-ci"
    /\ steps (started_run st) = APP_CI_STEPS
    /\ List.length (steps (started_run st)) = 6%nat
    /\ steps (started_run st) <> FALLBACK_STEPS.
Proof.
  assert (Hdefault : forall members,
             obj_get members "job" = JNull \/ obj_get members "job" = JStr "" ->
             exists st,
               api_run (Some (JObj members)) new_id now w = Some st
               /\ job (started_run st) = "app-ci"
               /\ steps (started_run st) = APP_CI_STEPS
               /\ List.length (steps (started_run st)) = 6%nat
               /\ steps (started_run st) <> FALLBACK_STEPS).
  { intros members Hget. unfold api_run.
    assert (E : (if truthy (JObj members) then JObj members else JObj [])
                = JObj members) by (destruct members; reflexivity).
    rewrite E.
    assert (Ej : (if truthy (obj_get members "job") then obj_get members "job"
                  else JStr "app-ci") = JStr "app-ci")
      by (destruct Hget as [-> | ->]; reflexivity).
    rewrite Ej. eexists. split; [reflexivity|].
    cbn [started_run job steps]. repeat split. discriminate. }
  intros [-> | [(members & -> & Hmiss) | (members & -> & Hempty)]].
  - destruct (Hdefault [] (or_introl eq_refl)) as (st & E & H). now exists st.
  - apply Hdefault. left. now apply obj_get_missing.
  - apply Hdefault. now right.
Qed.

Lemma api_run_default_job_witness :
  exists st,
    api_run (Some (JObj [("branch", JStr "main"); ("job", JStr "")])) "ab12cd34"
      1700000000000000 (mkWorld [] [] []) = Some st
    /\ steps (started_run st) = APP_CI_STEPS.
Proof.
  destruct (api_run_default_job
              (Some (JObj [("branch", JStr "main"); ("job", JStr "")]))
              "ab12cd34" 1700000000000000 (mkWorld [] [] [])) as (st & E & _ & H & _).
  - right. right. eexists. split; reflexivity.
  - exists st. now split.
Defined.

(** ** The statistics *)

Lemma zmin_spec (x : Z) (xs : list Z) :
  In (zmin (x :: xs)) (x :: xs) /\ forall y, In y (x :: xs) -> zmin (x :: xs) <= y.
Proof.
  cbn [zmin]. revert x.
  induction xs as [|a xs IH]; intros x.
  - cbn. split; [now left | intros y [<-|[]]; lia].
  - cbn [fold_left]. destruct (IH (Z.min x a)) as [Hin Hle]. split.
    + destruct Hin as [E|Hin].
      * rewrite <- E. destruct (Z.min_spec x a) as [[_ ->]|[_ ->]];
          [now left | right; now left].
      * right. now right.
    + intros y Hy.
      assert (Hm : fold_left Z.min xs (Z.min x a) <= Z.min x a)
        by (apply Hle; now left).
      destruct Hy as [<-|[<-|Hy]]; [lia | lia |].
      apply Hle. now right.
Qed.

Lemma last7_In (now : Z) (hist : list run) (h : run) :
  In h (last7 now hist) <-> In h hist /\ in_window now h.
Proof.
  unfold last7, finished, in_window, finish_time.
  rewrite !filter_In, Z.leb_le. split.
  - intros [[Hin Hfin] Hle]. split; trivial.
    destruct (finished_at h) as [t|]; [|discriminate]. now exists t.
  - intros [Hin (t & E & Hle)]. rewrite E. now repeat split.
Qed.

Lemma last7_finished (now : Z) (hist : list run) :
  Forall (fun h => is_some (finished_at h) = true) (last7 now hist).
Proof.
  apply Forall_forall. intros h Hin. apply last7_In in Hin as [_ (t & E & _)].
  now rewrite E.
Qed.

Lemma later_qualifies (l7 : list run) (h : run) :
  Forall (fun x => is_some (finished_at x) = true) l7 ->
  later l7 h = filter (qualifies h) l7.
Proof.
  intros Hfin. unfold later. apply filter_ext_in. intros x Hin.
  rewrite Forall_forall in Hfin. rewrite (Hfin x Hin). unfold qualifies.
  destruct (String.eqb (job x) (job h)), (finish_time h <? finish_time x),
    (String.eqb (status x) "success"); reflexivity.
Qed.

Lemma minutes_between_spec (t_fail t_succ : Z) :
  minutes_between t_fail t_succ = spec_minutes (t_succ - t_fail).
Proof. reflexivity. Qed.

(** The loop computes the minutes of the recovery times, in order. *)
Lemma mttr_loop_spec (l7 : list run) :
  Forall (fun x => is_some (finished_at x) = true) l7 ->
  forall todo mttrs,
    mttr_loop l7 todo mttrs
    = (ms <- mapM spec_minutes (recoveries_in l7 todo) ;; Some (mttrs ++ ms)).
Proof.
  intros Hfin. induction todo as [|h todo IH]; intros mttrs.
  - cbn. now rewrite app_nil_r.
  - cbn [mttr_loop recoveries_in flat_map].
    fold (recoveries_in l7 todo).
    rewrite (later_qualifies l7 h Hfin).
    destruct (String.eqb (status h) "failed"); cbn [negb app]; [|apply IH].
    destruct (filter (qualifies h) l7) as [|c cs]; cbn [app]; [apply IH|].
    rewrite minutes_between_spec. cbn [mapM].
    destruct (spec_minutes (zmin (map finish_time (c :: cs)) - finish_time h))
      as [m|]; [|reflexivity].
    rewrite IH.
    destruct (mapM spec_minutes (recoveries_in l7 todo)) as [ms|]; [|reflexivity].
    now rewrite <- app_assoc.
Qed.

Lemma mttr_of_spec (l7 : list run) :
  Forall (fun x => is_some (finished_at x) = true) l7 ->
  mttr_of l7 = mean_of_recoveries (recoveries l7).
Proof.
  intros Hfin. unfold mttr_of, mean_of_recoveries, recoveries.
  rewrite (mttr_loop_spec l7 Hfin).
  now destruct (mapM spec_minutes (recoveries_in l7 l7)).
Qed.

(** Each recovery time belongs to a failed run with a qualifying run in the
    window, and is the distance to the earliest of them. *)
Lemma recoveries_in_spec (win todo : list run) :
  Forall2 (is_recovery win) (recoverable_in win todo) (recoveries_in win todo).
Proof.
  induction todo as [|f todo IH]; [constructor|].
  cbn [recoverable_in recoveries_in filter flat_map].
  fold (recoverable_in win todo). fold (recoveries_in win todo).
  destruct (String.eqb (status f) "failed"); cbn [andb app]; [|exact IH].
  destruct (filter (qualifies f) win) as [|c cs] eqn:Ec.
  - assert (Hex : existsb (qualifies f) win = false).
    { destruct (existsb (qualifies f) win) eqn:Hex; trivial.
      apply existsb_exists in Hex as (x & Hin & Hq).
      assert (Hx : In x (filter (qualifies f) win)) by (apply filter_In; now split).
      rewrite Ec in Hx. destruct Hx. }
    rewrite Hex. exact IH.
  - assert (Hex : existsb (qualifies f) win = true).
    { apply existsb_exists. exists c.
      apply filter_In. rewrite Ec. now left. }
    rewrite Hex. cbn [app]. constructor; [|exact IH].
    destruct (zmin_spec (finish_time c) (map finish_time cs)) as [Hin Hmin].
    change (finish_time c :: map finish_time cs)
      with (map finish_time (c :: cs)) in Hin, Hmin.
    apply in_map_iff in Hin as (s & Es & Hs).
    rewrite <- Ec in Hs, Hmin. apply filter_In in Hs as [Hs Hq].
    exists s. repeat split; trivial.
    + now rewrite Es.
    + intros s' Hs' Hq'. rewrite Es, <- Ec. apply Hmin. apply in_map.
      apply filter_In. now split.
Qed.

Lemma calc_stats_empty_history (now : Z) (w : world) (st : stats) :
  history w = [] -> _calc_stats now w = Some st ->
  st = mkStats 0 (PyInt 0) (PyInt 0) 0 0.
Proof. unfold _calc_stats. intros ->. congruence. Qed.

(** On a non-empty history the five fields are the five computations. *)
Lemma calc_stats_fields (now : Z) (w : world) (st : stats) :
  history w <> [] -> _calc_stats now w = Some st ->
  let l7 := last7 now (history w) in
  avg_duration_of l7 = Some (avg_duration st)
  /\ mttr_of l7 = Some (mttr_minutes st)
  /\ rate (count_status "success" l7) (len l7) = Some (success_rate st)
  /\ rate (count_status "failed" l7) (len l7) = Some (cfr st)
  /\ deploys_today st = len (today now (history w)).
Proof.
  intros Hne. unfold _calc_stats.
  destruct (history w) as [|h hist] eqn:Eh; [contradiction|].
  cbv zeta.
  destruct (avg_duration_of _) as [a|]; [|discriminate].
  destruct (mttr_of _) as [m|]; [|discriminate].
  destruct (rate (count_status "success" _) _) as [sr|]; [|discriminate].
  destruct (rate (count_status "failed" _) _) as [fr|]; [|discriminate].
  intros [= <-]. now repeat split.
Qed.

Lemma calc_stats_mttr_of (now : Z) (w : world) (st : stats) :
  _calc_stats now w = Some st ->
  mttr_of (last7 now (history w)) = Some (mttr_minutes st).
Proof.
  intros H. destruct (history w) as [|h hist] eqn:Eh.
  - rewrite (calc_stats_empty_history now w st Eh H). reflexivity.
  - rewrite <- Eh. apply (calc_stats_fields now w st); [|exact H].
    rewrite Eh. discriminate.
Qed.

Lemma recoveries_failure_then_success (f s : run) (T0 : Z) :
  status f = "failed" -> status s = "success" -> job s = job f ->
  finished_at f = Some T0 -> finished_at s = Some (T0 + FIVE_MINUTES) ->
  recoveries [f; s] = [FIVE_MINUTES] /\ recoveries [s; f] = [FIVE_MINUTES].
Proof.
  intros Hf Hs Hj Tf Ts.
  assert (Hlt : (T0 <? T0 + FIVE_MINUTES) = true)
    by (apply Z.ltb_lt; unfold FIVE_MINUTES; lia).
  assert (Hd : T0 + FIVE_MINUTES - T0 = FIVE_MINUTES) by lia.
  unfold recoveries, recoveries_in, qualifies, finish_time.
  cbn [flat_map filter app].
  rewrite Hf, Hs, Hj, Tf, Ts, !String.eqb_refl, Z.ltb_irrefl, Hlt.
  cbn [String.eqb Ascii.eqb Bool.eqb andb app filter map zmin fold_left].
  now rewrite Ts, Hd.
Qed.

Lemma last7_all (now : Z) (hist : list run) :
  Forall (in_window now) hist -> last7 now hist = hist.
Proof.
  induction hist as [|h hist IH]; intros Hall; [reflexivity|].
  inversion_clear Hall as [|? ? (t & E & Hle) Hrest].
  unfold last7, finished in *. cbn [filter]. rewrite E. cbn [is_some filter].
  unfold finish_time at 1. rewrite E.
  apply Z.leb_le in Hle. rewrite Hle. f_equal. now apply IH.
Qed.

Lemma fold_add_ones {A : Type} (l : list A) :
  forall a, fold_left Z.add (map (fun _ => 1) l) a = a + len l.
Proof.
  unfold len. induction l as [|x l IH]; intros a.
  - cbn. lia.
  - cbn [map fold_left List.length]. rewrite IH. lia.
Qed.

Lemma count_status_spec (s : string) (l7 : list run) :
  count_status s l7 = spec_count s l7.
Proof. unfold count_status, spec_count, zsum. now rewrite fold_add_ones. Qed.

Lemma spec_count_bounds (s : string) (l7 : list run) :
  0 <= spec_count s l7 <= len l7.
Proof.
  unfold spec_count, len.
  pose proof (filter_length_le (fun h => String.eqb (status h) s) l7). lia.
Qed.

(** A part of a whole never overflows a float. *)
Lemma int_truediv_part (n total : Z) :
  0 <= n <= total -> total <> 0 -> int_truediv n total = Some (ratio n total).
Proof.
  intros Hn Ht. unfold int_truediv, truediv_overflows.
  destruct (Z.eqb_spec total 0) as [|_]; [contradiction|].
  assert (Hc : 1 < 2 ^ 1024 - 2 ^ 970) by reflexivity.
  remember (2 ^ 1024 - 2 ^ 970) as c eqn:Ec. clear Ec.
  destruct (Z.leb_spec (c * Z.abs total) (Z.abs n)) as [Hle|]; [|reflexivity].
  rewrite !Z.abs_eq in Hle by lia. nia.
Qed.

Lemma rate_spec (n total : Z) :
  0 <= n <= total -> rate n total = Some (PyFloat (spec_percent n total)).
Proof.
  intros Hn. unfold rate, spec_percent.
  destruct (Z.eqb_spec total 0) as [|Ht]; [reflexivity|].
  now rewrite int_truediv_part.
Qed.

Lemma float_eqb_eq (x y : float) : float_eqb x y = true -> x = y.
Proof.
  destruct x as [s|s| |s m e], y as [s'|s'| |s' m' e']; cbn; try discriminate.
  - intros H. apply Bool.eqb_prop in H. now subst.
  - intros H. apply Bool.eqb_prop in H. now subst.
  - reflexivity.
  - intros H. apply andb_true_iff in H as [H He].
    apply andb_true_iff in H as [Hs Hm].
    apply Bool.eqb_prop in Hs. apply Pos.eqb_eq in Hm. apply Z.eqb_eq in He.
    now subst.
Qed.

Lemma one_decimal_check_sound (n total : Z) :
  one_decimal_check n total = true ->
  one_decimal_of n total (spec_percent n total).
Proof.
  unfold one_decimal_check. intros H.
  apply existsb_exists in H as (k & _ & H).
  apply andb_true_iff in H as [Hx Hk].
  exists k. split; [now apply float_eqb_eq | now apply Z.leb_le].
Qed.

Lemma one_decimal_upto_sound (N : nat) :
  one_decimal_upto N = true ->
  forall n total,
    0 <= n <= total -> 0 < total <= Z.of_nat N ->
    one_decimal_check n total = true.
Proof.
  unfold one_decimal_upto. intros Hall n total Hn Ht.
  rewrite forallb_forall in Hall.
  specialize (Hall (Z.to_nat total)). rewrite forallb_forall in Hall.
  specialize (fun H => Hall H (Z.to_nat n)).
  rewrite !Z2Nat.id in Hall by lia.
  apply Hall; apply in_seq; lia.
Qed.

Lemma one_decimal_upto_100 : one_decimal_upto 100 = true.
Proof. vm_compute. reflexivity. Qed.

(** On windows of up to 100 entries the float the code returns is the
    percentage rounded to one decimal; checked on every case. *)
Lemma spec_percent_one_decimal (n total : Z) :
  0 <= n <= total -> 0 < total <= 100 ->
  one_decimal_of n total (spec_percent n total).
Proof.
  intros Hn Ht. apply one_decimal_check_sound.
  apply (one_decimal_upto_sound 100 one_decimal_upto_100); trivial.
Qed.

(** The statistics are returned whenever the two means are: the two rates
    never raise. *)
Lemma calc_stats_returns (now : Z) (w : world) (a m : Z) :
  let win := last7 now (history w) in
  history w <> [] ->
  avg_duration_of win = Some a -> mttr_of win = Some m ->
  _calc_stats now w
  = Some (mkStats (len (today now (history w)))
            (PyFloat (spec_percent (spec_count "success" win) (len win)))
            (PyFloat (spec_percent (spec_count "failed" win) (len win)))
            a m).
Proof.
  intros win Hne Ha Hm. unfold _calc_stats.
  destruct (history w) as [|h hist] eqn:Eh; [contradiction|].
  cbv zeta. fold win. rewrite Ha, Hm.
  now rewrite !count_status_spec, !rate_spec by apply spec_count_bounds.
Qed.

(** C6. Over the entries that finished within the last seven days,
    [success_rate] is the share of successes and [cfr] the share of
    failures, each as a percentage rounded to one decimal; both are zero when
    the window is empty; three successes and one failure give [75.0] and
    [25.0]. *)
Theorem calc_stats_rates (now : Z) (w : world) :
  let win := last7 now (history w) in
  let total := len win in
  let successes := spec_count "success" win in
  let failures := spec_count "failed" win in
  (forall h, In h win <-> In h (history w) /\ in_window now h)
  /\ rate (count_status "success" win) total
     = Some (PyFloat (spec_percent successes total))
  /\ rate (count_status "failed" win) total
     = Some (PyFloat (spec_percent failures total))
  /\ (forall st, _calc_stats now w = Some st ->
        (history w <> [] ->
           success_rate st = PyFloat (spec_percent successes total)
           /\ cfr st = PyFloat (spec_percent failures total))
        /\ (win = [] ->
             pynum_is_zero (success_rate st) = true
             /\ pynum_is_zero (cfr st) = true)
        /\ (successes = 3 -> failures = 1 -> total = 4 ->
             success_rate st = PyFloat (of_int 75)
             /\ cfr st = PyFloat (of_int 25)))
  /\ (0 < total <= 100 ->
        one_decimal_of successes total (spec_percent successes total)
        /\ one_decimal_of failures total (spec_percent failures total)).
Proof.
  intros win total successes failures.
  assert (Hs : rate (count_status "success" win) total
               = Some (PyFloat (spec_percent successes total)))
    by (rewrite count_status_spec; apply rate_spec, spec_count_bounds).
  assert (Hf : rate (count_status "failed" win) total
               = Some (PyFloat (spec_percent failures total)))
    by (rewrite count_status_spec; apply rate_spec, spec_count_bounds).
  split; [intros h; apply last7_In|]. split; [exact Hs|]. split; [exact Hf|].
  split;
    [|intros Ht; split; apply spec_percent_one_decimal; trivial;
      apply spec_count_bounds].
  intros st Hst.
  assert (Hgen : history w <> [] ->
                 success_rate st = PyFloat (spec_percent successes total)
                 /\ cfr st = PyFloat (spec_percent failures total)).
  { intros Hne.
    destruct (calc_stats_fields now w st Hne Hst) as (_ & _ & Hs' & Hf' & _).
    cbv zeta in Hs', Hf'. fold win in Hs', Hf'. fold total in Hs', Hf'.
    split; congruence. }
  split; [exact Hgen|]. split.
  - intros Hwin. destruct (history w) as [|h hist] eqn:Eh.
    + rewrite (calc_stats_empty_history now w st Eh Hst). now split.
    + destruct Hgen as [-> ->]; [discriminate|].
      subst total successes failures. rewrite Hwin. now split.
  - intros E3 E1 E4.
    destruct Hgen as [-> ->].
    + intros E. subst total win. rewrite E in E4. discriminate.
    + rewrite E3, E1, E4. split; vm_compute; reflexivity.
Qed.

Lemma calc_stats_rates_witness :
  let hist := [ demo_entry "a1" "app-ci" "success" demo_t0 12;
                demo_entry "b2" "api-ci" "failed" (demo_t0 + 1000000) 7;
                demo_entry "c3" "app-ci" "success" (demo_t0 + 2000000) 9;
                demo_entry "d4" "api-ci" "success" (demo_t0 + 3000000) 15 ] in
  exists st,
    _calc_stats demo_now (mkWorld [] hist []) = Some st
    /\ success_rate st = PyFloat (of_int 75)
    /\ cfr st = PyFloat (of_int 25).
Proof.
  intros hist.
  assert (H : _calc_stats demo_now (mkWorld [] hist [])
              = Some (mkStats 4 (PyFloat (of_int 75)) (PyFloat (of_int 25)) 10 0))
    by (vm_compute; reflexivity).
  eexists. split; [exact H|].
  destruct (calc_stats_rates demo_now (mkWorld [] hist []))
    as (_ & _ & _ & Hst & _).
  destruct (Hst _ H) as (_ & _ & Hex).
  apply Hex; vm_compute; reflexivity.
Defined.

(** C7. On an empty history the statistics are returned, not an exception,
    and the five of them are zero. *)
Theorem calc_stats_empty (now : Z) (b : list run) (l : list (string * log_line)) :
  exists st,
    _calc_stats now (mkWorld b [] l) = Some st
    /\ deploys_today st = 0
    /\ pynum_is_zero (success_rate st) = true
    /\ pynum_is_zero (cfr st) = true
    /\ avg_duration st = 0
    /\ mttr_minutes st = 0.
Proof. eexists. split; [reflexivity|]. now repeat split. Qed.

(** C5, as the code has it.  A run that finishes within its first second has
    [duration_s = 0], and the truth test on [duration_s] drops it from the
    average: with durations [0] and [10] in the window the code returns [10],
    while the integer mean of the durations that are present is [5]. *)
Theorem calc_stats_avg_duration_drops_zero :
  exists st,
    _calc_stats demo_now (mkWorld [] demo_history []) = Some st
    /\ map duration_s (last7 demo_now demo_history) = [Some 0; Some 10]
    /\ avg_duration st = 10
    /\ spec_avg_duration (last7 demo_now demo_history) = Some 5.
Proof.
  eexists. split; [vm_compute; reflexivity|].
  split; [vm_compute; reflexivity|]. split; vm_compute; reflexivity.
Qed.

(** ** More on the run engine *)

(** The two shapes of a trace. *)
Lemma trace_all_pass (e : env) (r : run) :
  all_pass e 0 (steps r) = true ->
  _simulate_pipeline e r
  = start_line e r :: passed_steps e r 0 2 (steps r)
    ++ success_block e r (2 + 3 * List.length (steps r)).
Proof.
  intros Hpass. rewrite simulate_pipeline_unfold. f_equal.
  rewrite <- (app_nil_r (steps r)) at 1.
  now rewrite (run_steps_passed e r (steps r) [] 0 2 Hpass), run_steps_done.
Qed.

Lemma trace_first_failure (e : env) (r : run) (pre : list string) (s : string)
    (post : list string) :
  steps r = pre ++ s :: post ->
  all_pass e 0 pre = true ->
  step_failed e (List.length pre) s = true ->
  _simulate_pipeline e r
  = start_line e r :: passed_steps e r 0 2 pre
    ++ step_begin e r (List.length pre) (2 + 3 * List.length pre) s
    ++ failure_block e r (2 + 3 * List.length pre) s.
Proof.
  intros Hsteps Hpass Hfail. rewrite simulate_pipeline_unfold, Hsteps.
  rewrite (run_steps_passed e r pre (s :: post) 0 2 Hpass).
  rewrite run_steps_step. cbn [Nat.add]. now rewrite Hfail.
Qed.

(** A list of steps either passes as a whole or has a first failing step. *)
Lemma all_pass_or_first_failure (e : env) (l : list string) :
  forall i,
    all_pass e i l = true
    \/ exists pre s post,
         l = pre ++ s :: post
         /\ all_pass e i pre = true
         /\ step_failed e (i + List.length pre) s = true.
Proof.
  induction l as [|s l IH]; intros i; [now left|].
  cbn [all_pass]. destruct (step_failed e i s) eqn:Hs.
  - right. exists [], s, l. cbn [List.length app all_pass].
    rewrite Nat.add_0_r. now repeat split.
  - destruct (IH (S i)) as [Hl | (pre & s' & post & -> & Hpre & Hf)].
    + left. now rewrite Hl.
    + right. exists (s :: pre), s', post. cbn [all_pass List.length app].
      rewrite Hs, Hpre. repeat split.
      now replace (i + S (List.length pre))%nat with (S i + List.length pre)%nat by lia.
Qed.

Lemma all_pass_app (e : env) (pre post : list string) :
  forall i,
    all_pass e i (pre ++ post)
    = all_pass e i pre && all_pass e (i + List.length pre) post.
Proof.
  induction pre as [|s pre IH]; intros i.
  - cbn. now rewrite Nat.add_0_r.
  - cbn [app all_pass List.length]. rewrite IH, andb_assoc.
    now replace (i + S (List.length pre))%nat with (S i + List.length pre)%nat by lia.
Qed.

(** When every step passes its roll the calls are the start line, those of
    all the steps and the success block: [3n + 2] log writes and [n] sleeps
    for [n] steps. *)
Lemma trace_all_pass_effects (e : env) (r : run) :
  all_pass e 0 (steps r) = true ->
  let n := List.length (steps r) in
  let final := succeeded_run e r (2 + 3 * n) in
  let trace := _simulate_pipeline e r in
  appended_runs trace = [final]
  /\ map current_step (snapshots trace) = map Some (steps r) ++ [None]
  /\ last (snapshots trace) r = final
  /\ List.length (log_lines trace) = (3 * n + 2)%nat
  /\ List.length (sleeps trace) = n
  /\ (forall w, history (perform_all w trace) = history w ++ [final]).
Proof.
  intros Hpass n final trace.
  assert (E : trace = [start_line e r] ++ passed_steps e r 0 2 (steps r)
                      ++ success_block e r (2 + 3 * n))
    by (apply trace_all_pass; exact Hpass).
  assert (Ha : appended_runs trace = [final])
    by (rewrite E, !appended_runs_app, passed_steps_appended; reflexivity).
  split; [exact Ha|]. split; [|split; [|split; [|split]]].
  - rewrite E, !snapshots_app, !map_app, passed_steps_snapshots. reflexivity.
  - rewrite E, !snapshots_app.
    change (snapshots (success_block e r (2 + 3 * n))) with [final].
    rewrite app_assoc. apply last_last.
  - rewrite E, !log_lines_app, !length_app.
    rewrite (proj1 (passed_steps_counts e r (steps r) 0 2)). cbn. unfold n. lia.
  - rewrite E, !sleeps_app, !length_app.
    rewrite (proj2 (passed_steps_counts e r (steps r) 0 2)). cbn. unfold n. lia.
  - intros w. now rewrite history_perform_all, Ha.
Qed.

(** The record at the end of the calls is failed exactly when one of the
    steps fails its roll, and a success exactly when all of them pass. *)
Lemma trace_outcome (e : env) (r : run) :
  exists final,
    appended_runs (_simulate_pipeline e r) = [final]
    /\ status final = (if all_pass e 0 (steps r) then "success" else "failed")
    /\ (status final = "failed" <->
        exists pre s post,
          steps r = pre ++ s :: post
          /\ all_pass e 0 pre = true
          /\ step_failed e (List.length pre) s = true).
Proof.
  destruct (all_pass_or_first_failure e (steps r) 0)
    as [Hpass | (pre & s & post & Hsteps & Hpre & Hfail)].
  - exists (succeeded_run e r (2 + 3 * List.length (steps r))).
    rewrite Hpass, trace_all_pass by exact Hpass.
    change (start_line e r :: ?l) with ([start_line e r] ++ l).
    rewrite !appended_runs_app, passed_steps_appended.
    split; [reflexivity|]. split; [reflexivity|]. split; [discriminate|].
    intros (pre & s & post & Hsteps & _ & Hfail). exfalso.
    rewrite Hsteps, all_pass_app in Hpass. cbn [all_pass Nat.add] in Hpass.
    rewrite Hfail in Hpass. cbn in Hpass.
    now rewrite andb_false_r in Hpass.
  - cbn [Nat.add] in Hfail.
    exists (failed_run e r (2 + 3 * List.length pre)).
    rewrite (trace_first_failure e r pre s post Hsteps Hpre Hfail).
    change (start_line e r :: ?l) with ([start_line e r] ++ l).
    rewrite !appended_runs_app, passed_steps_appended.
    split; [reflexivity|].
    assert (Hnot : all_pass e 0 (steps r) = false).
    { rewrite Hsteps, all_pass_app. cbn [all_pass Nat.add].
      rewrite Hfail. cbn. apply andb_false_r. }
    rewrite Hnot. split; [reflexivity|]. split; [|reflexivity].
    intros _. now exists pre, s, post.
Qed.



(** ** More on the snapshot store *)

Lemma others_same_id (r1 r2 : run) (l : list run) :
  run_id r1 = run_id r2 -> others r1 l = others r2 l.
Proof. intros E. unfold others. now rewrite E. Qed.

Lemma others_fixed (r : run) (l : list run) :
  (forall x, In x l -> run_id x <> run_id r) -> others r l = l.
Proof.
  intros H. unfold others. induction l as [|x l IH]; [reflexivity|].
  cbn [filter].
  destruct (String.eqb_spec (run_id x) (run_id r)) as [E|_].
  - exfalso. apply (H x); [now left | exact E].
  - cbn [negb]. f_equal. apply IH. intros y Hy. apply H. now right.
Qed.

Lemma others_kept (r : run) (l : list run) (n : nat) :
  others r (firstn n (others r l)) = firstn n (others r l).
Proof.
  apply others_fixed. intros x Hx. apply firstn_In in Hx.
  now apply others_In in Hx.
Qed.

Lemma others_head (r y : run) (l : list run) :
  run_id y = run_id r -> others r (y :: l) = others r l.
Proof.
  intros E. unfold others. cbn [filter]. rewrite E, String.eqb_refl. reflexivity.
Qed.

(** X4. Saving two snapshots of the same run one after the other leaves
    what saving the second alone leaves: a re-snapshot replaces the earlier
    one and costs no other entry its place. *)
Theorem save_current_snapshot_absorbs (r1 r2 : run) (w : world) :
  run_id r1 = run_id r2 ->
  _save_current_snapshot r2 (_save_current_snapshot r1 w)
  = _save_current_snapshot r2 w.
Proof.
  intros E.
  assert (Hb : builds (_save_current_snapshot r2 (_save_current_snapshot r1 w))
               = builds (_save_current_snapshot r2 w)).
  { rewrite !save_current_snapshot_builds.
    rewrite (others_head r2 r1) by exact E.
    rewrite <- !(others_same_id r1 r2 _ E).
    rewrite others_kept, firstn_firstn. now rewrite Nat.min_id. }
  unfold _save_current_snapshot, set_builds in *. cbn [builds history logs] in *.
  now rewrite Hb.
Qed.

Lemma save_current_snapshot_absorbs_witness :
  let w := mkWorld [demo_run "b2" "api-ci" "success"] [] [] in
  _save_current_snapshot (demo_run "a1" "app-ci" "success")
    (_save_current_snapshot (demo_run "a1" "app-ci" "running") w)
  = _save_current_snapshot (demo_run "a1" "app-ci" "success") w.
Proof.
  intros w.
  exact (save_current_snapshot_absorbs (demo_run "a1" "app-ci" "running")
           (demo_run "a1" "app-ci" "success") w eq_refl).
Defined.

Lemma others_length_present (r : run) (l : list run) :
  NoDup (map run_id l) -> In (run_id r) (map run_id l) ->
  S (List.length (others r l)) = List.length l.
Proof.
  induction l as [|x l IH]; intros ND Hin; [destruct Hin|].
  cbn [map] in ND. inversion_clear ND as [|? ? Hx Hl].
  destruct (String.eqb_spec (run_id x) (run_id r)) as [E|E].
  - rewrite others_head by exact E. cbn [List.length]. f_equal.
    f_equal. apply others_fixed. intros y Hy Ey. apply Hx.
    rewrite E, <- Ey. now apply in_map.
  - unfold others in *. cbn [filter].
    destruct (String.eqb_spec (run_id x) (run_id r)) as [E'|_]; [contradiction|].
    cbn [negb List.length]. f_equal. apply IH; trivial.
    destruct Hin as [Hin|Hin]; [contradiction | exact Hin].
Qed.

(** X5. Which entry leaves the list.  Saving a run whose id is new puts it
    in front of the old list cut to 99 entries: below the cap nothing is
    lost, and at the cap the last entry, the least recently written one, is
    the one dropped.  Saving a run whose id is already in a list with
    distinct ids and at most 100 entries drops only that run's old entry, so
    the length stays. *)
Theorem save_current_snapshot_eviction (r : run) (w : world) :
  let curr := builds (_save_current_snapshot r w) in
  ((forall x, In x (builds w) -> run_id x <> run_id r) ->
     curr = r :: firstn 99 (builds w)
     /\ ((List.length (builds w) < 100)%nat -> curr = r :: builds w)
     /\ ((List.length (builds w) = 100)%nat ->
           exists kept oldest,
             builds w = kept ++ [oldest] /\ curr = r :: kept))
  /\ (NoDup (map run_id (builds w)) -> (List.length (builds w) <= 100)%nat ->
      In (run_id r) (map run_id (builds w)) ->
        curr = r :: others r (builds w)
        /\ List.length curr = List.length (builds w)).
Proof.
  intros curr. subst curr. rewrite save_current_snapshot_builds. split.
  - intros Hnew. rewrite (others_fixed r (builds w) Hnew).
    split; [reflexivity|]. split.
    + intros Hlt. now rewrite firstn_all2 by lia.
    + intros Hlen. exists (firstn 99 (builds w)), (last (builds w) r).
      split; [|reflexivity].
      assert (Hne : builds w <> []) by (intros E; rewrite E in Hlen; discriminate).
      rewrite (app_removelast_last r Hne) at 1. f_equal.
      rewrite removelast_firstn_len, Hlen. reflexivity.
  - intros ND Hle Hin.
    pose proof (others_length_present r (builds w) ND Hin) as Hlen.
    rewrite firstn_all2 by lia. split; [reflexivity|].
    cbn [List.length]. exact Hlen.
Qed.

Lemma save_current_snapshot_eviction_witness :
  let w := mkWorld [demo_run "a1" "app-ci" "running";
                    demo_run "b2" "api-ci" "success"] [] [] in
  builds (_save_current_snapshot (demo_run "c3" "app-ci" "running") w)
  = demo_run "c3" "app-ci" "running" :: builds w
  /\ List.length (builds (_save_current_snapshot (demo_run "b2" "api-ci" "failed") w))
     = 2%nat.
Proof.
  intros w. split.
  - destruct (save_current_snapshot_eviction (demo_run "c3" "app-ci" "running") w)
      as [Hnew _].
    apply Hnew.
    + intros x [<-|[<-|[]]]; discriminate.
    + cbn. lia.
  - destruct (save_current_snapshot_eviction (demo_run "b2" "api-ci" "failed") w)
      as [_ Hold].
    apply Hold.
    + cbn. repeat constructor; cbn; intuition discriminate.
    + cbn. lia.
    + cbn. tauto.
Defined.

(** ** The engine and the stores together *)

Lemma perform_all_app (w : world) (l1 l2 : list effect) :
  perform_all w (l1 ++ l2) = perform_all (perform_all w l1) l2.
Proof. apply fold_left_app. Qed.

Lemma snapshots_cons (ef : effect) (l : list effect) :
  snapshots (ef :: l) = snapshots [ef] ++ snapshots l.
Proof. exact (snapshots_app [ef] l). Qed.

(** Every snapshot and every log line of a run carries the run's id. *)
Lemma run_steps_ids (e : env) (start : Z) (todo : list string) :
  forall r i tick,
    Forall (fun x => run_id x = run_id r)
           (snapshots (run_steps e start r i tick todo))
    /\ Forall (fun p => fst p = run_id r)
              (log_lines (run_steps e start r i tick todo)).
Proof.
  induction todo as [|step todo IH]; intros r i tick.
  - cbn. split; repeat constructor.
  - cbn [run_steps]. destruct (step_failed e i step).
    + cbn. split; repeat constructor.
    + destruct (IH (set_current_step r (Some step)) (S i) (tick + 3)%nat)
        as [Hs Hl].
      cbn [snapshots log_lines flat_map app] in *.
      split; repeat (constructor; [reflexivity|]); assumption.
Qed.

Lemma simulate_pipeline_ids (e : env) (r : run) :
  Forall (fun x => run_id x = run_id r) (snapshots (_simulate_pipeline e r))
  /\ Forall (fun p => fst p = run_id r) (log_lines (_simulate_pipeline e r)).
Proof.
  destruct (run_steps_ids e (clock e 0) (steps r) r 0%nat 2%nat) as [Hs Hl].
  rewrite simulate_pipeline_unfold. cbn [snapshots log_lines flat_map app] in *.
  split; [exact Hs | constructor; [reflexivity | exact Hl]].
Qed.

(** After effects whose snapshots all belong to one run, the current-runs
    list is the last of these snapshots in front of the other runs' entries. *)
Lemma builds_after_snapshots (r : run) (efs : list effect) :
  Forall (fun x => run_id x = run_id r) (snapshots efs) ->
  forall w,
    builds (perform_all w efs)
    = match rev (snapshots efs) with
      | [] => builds w
      | x :: _ => x :: firstn 99 (others r (builds w))
      end.
Proof.
  induction efs as [|ef efs IH] using rev_ind; intros Hids w; [reflexivity|].
  rewrite snapshots_app in Hids. apply Forall_app in Hids as [Hefs Hef].
  rewrite perform_all_app, snapshots_app, rev_app_distr.
  specialize (IH Hefs w). cbn [perform_all fold_left].
  destruct ef as [rid line|x|x|d]; cbn [snapshots flat_map app rev perform];
    try exact IH.
  inversion_clear Hef as [|? ? Hx _]. rewrite save_current_snapshot_builds.
  rewrite (others_same_id x r) by exact Hx. f_equal. rewrite IH.
  destruct (rev (snapshots efs)) as [|y ys] eqn:Ey; [reflexivity|].
  assert (Hy : run_id y = run_id r).
  { rewrite Forall_forall in Hefs. apply Hefs. apply in_rev. rewrite Ey. now left. }
  rewrite (others_head r y) by exact Hy.
  rewrite others_kept, firstn_firstn. now rewrite Nat.min_id.
Qed.

Lemma filter_tagged (rid : string) (l : list (string * log_line)) :
  Forall (fun p => fst p = rid) l ->
  forall rid',
    filter (fun p => String.eqb (fst p) rid') l
    = if String.eqb rid rid' then l else [].
Proof.
  intros Hl rid'. induction Hl as [|p l Hp _ IH].
  - now destruct (String.eqb rid rid').
  - cbn [filter]. rewrite IH, Hp. now destruct (String.eqb rid rid').
Qed.

(** A trace ends with the snapshot and the append of its one final record,
    and leaves it in front of the current-runs list. *)
Lemma simulate_pipeline_world (e : env) (r : run) :
  exists pre final,
    _simulate_pipeline e r = pre ++ [SaveSnapshot final; AppendHistory final]
    /\ appended_runs pre = []
    /\ appended_runs (_simulate_pipeline e r) = [final]
    /\ run_id final = run_id r
    /\ (status final = "success" \/ status final = "failed")
    /\ forall w,
         builds (perform_all w (_simulate_pipeline e r))
         = final :: firstn 99 (others r (builds w))
         /\ history (perform_all w (_simulate_pipeline e r)) = history w ++ [final].
Proof.
  destruct (run_steps_ends e (steps r) r 0%nat 2%nat)
    as (body & final & E & Ha & Hid & Hst & _).
  destruct (simulate_pipeline_ids e r) as [Hids _].
  assert (Et : _simulate_pipeline e r
               = (start_line e r :: body)
                 ++ [SaveSnapshot final; AppendHistory final])
    by (rewrite simulate_pipeline_unfold, E; reflexivity).
  assert (Hpre : appended_runs (start_line e r :: body) = []) by exact Ha.
  assert (Happ : appended_runs (_simulate_pipeline e r) = [final])
    by (rewrite Et, appended_runs_app, Hpre; reflexivity).
  exists (start_line e r :: body), final.
  split; [exact Et|]. split; [exact Hpre|]. split; [exact Happ|].
  split; [exact Hid|]. split; [exact Hst|].
  intros w. split.
  - rewrite (builds_after_snapshots r _ Hids).
    rewrite Et, snapshots_app, rev_app_distr. reflexivity.
  - now rewrite history_perform_all, Happ.
Qed.

Lemma log_records_perform_all (r : run) (efs : list effect) (w : world) :
  Forall (fun p => fst p = run_id r) (log_lines efs) ->
  log_records (run_id r) (perform_all w efs)
  = log_records (run_id r) w ++ map snd (log_lines efs)
  /\ (forall rid, rid <> run_id r ->
        log_records rid (perform_all w efs) = log_records rid w).
Proof.
  intros Htags. unfold log_records. split.
  - rewrite logs_perform_all, filter_app, map_app. f_equal.
    rewrite (filter_tagged (run_id r) _ Htags). now rewrite String.eqb_refl.
  - intros rid Hrid. rewrite logs_perform_all, filter_app, map_app.
    rewrite (filter_tagged (run_id r) _ Htags).
    destruct (String.eqb_spec (run_id r) rid) as [Eid|_]; [now symmetry in Eid|].
    cbn. now rewrite app_nil_r.
Qed.

(** What the calls of one run, all of them made, do to the persisted
    state. *)
Lemma trace_net_effect (e : env) (r : run) (w : world) :
  let trace := _simulate_pipeline e r in
  let w' := perform_all w trace in
  exists final,
    appended_runs trace = [final]
    /\ builds w' = final :: firstn 99 (others r (builds w))
    /\ history w' = history w ++ [final]
    /\ log_records (run_id r) w'
       = log_records (run_id r) w ++ map snd (log_lines trace)
    /\ (forall rid, rid <> run_id r -> log_records rid w' = log_records rid w).
Proof.
  intros trace w'.
  destruct (simulate_pipeline_world e r) as (pre & final & _ & _ & Ha & _ & _ & Hw).
  destruct (Hw w) as [Hb Hh].
  destruct (log_records_perform_all r trace w (proj2 (simulate_pipeline_ids e r)))
    as [Hown Hother].
  exists final. now repeat split.
Qed.

(** X9. Whatever effects of whatever runs are performed, in whatever
    order: a current-runs list with distinct ids and at most 100 entries
    stays so, and the history and the log files only grow at their end. *)
Theorem perform_all_invariants (efs : list effect) (w : world) :
  NoDup (map run_id (builds w)) -> (List.length (builds w) <= 100)%nat ->
  NoDup (map run_id (builds (perform_all w efs)))
  /\ (List.length (builds (perform_all w efs)) <= 100)%nat
  /\ history (perform_all w efs) = history w ++ appended_runs efs
  /\ logs (perform_all w efs) = logs w ++ log_lines efs.
Proof.
  intros ND Hlen.
  split; [|split; [|split; [apply history_perform_all | apply logs_perform_all]]].
  - revert w ND Hlen. induction efs as [|ef efs IH]; intros w ND Hlen; [exact ND|].
    change (perform_all w (ef :: efs)) with (perform_all (perform w ef) efs).
    destruct ef as [rid line|x|x|d]; cbn [perform];
      try (apply IH; assumption).
    apply IH.
    + rewrite save_current_snapshot_builds. now apply kept_NoDup.
    + rewrite save_current_snapshot_builds. cbn [List.length].
      pose proof (firstn_le_length 99 (others x (builds w))). lia.
  - revert w ND Hlen. induction efs as [|ef efs IH]; intros w ND Hlen; [exact Hlen|].
    change (perform_all w (ef :: efs)) with (perform_all (perform w ef) efs).
    destruct ef as [rid line|x|x|d]; cbn [perform];
      try (apply IH; assumption).
    apply IH.
    + rewrite save_current_snapshot_builds. now apply kept_NoDup.
    + rewrite save_current_snapshot_builds. cbn [List.length].
      pose proof (firstn_le_length 99 (others x (builds w))). lia.
Qed.

Lemma perform_all_invariants_witness :
  let w := mkWorld [demo_run "zz" "api-ci" "success"] [] [] in
  NoDup (map run_id (builds (perform_all w (_simulate_pipeline demo_env demo_start))))
  /\ List.length (history (perform_all w (_simulate_pipeline demo_env demo_start)))
     = 1%nat.
Proof.
  intros w.
  assert (ND : NoDup (map run_id (builds w)))
    by (cbn; repeat constructor; cbn; tauto).
  assert (Hlen : (List.length (builds w) <= 100)%nat) by (cbn; lia).
  destruct (perform_all_invariants (_simulate_pipeline demo_env demo_start) w ND Hlen)
    as (H1 & _ & H3 & _).
  split; [exact H1|]. rewrite H3. vm_compute. reflexivity.
Defined.

Lemma appended_runs_split (n : nat) (l : list effect) :
  appended_runs l = appended_runs (firstn n l) ++ appended_runs (skipn n l).
Proof. now rewrite <- appended_runs_app, firstn_skipn. Qed.

Lemma appended_before_end (pre : list effect) (final : run) (n : nat) :
  appended_runs pre = [] ->
  (n < List.length (pre ++ [SaveSnapshot final; AppendHistory final]))%nat ->
  appended_runs (firstn n (pre ++ [SaveSnapshot final; AppendHistory final])) = [].
Proof.
  intros Hpre Hn. rewrite length_app in Hn. cbn [List.length] in Hn.
  rewrite firstn_app, appended_runs_app, (appended_runs_firstn _ Hpre).
  destruct (n - List.length pre)%nat as [|[|k]] eqn:Ek; [reflexivity | reflexivity | lia].
Qed.

Lemma snapshots_skipn (P : run -> Prop) (n : nat) (l : list effect) :
  Forall P (snapshots l) -> Forall P (snapshots (skipn n l)).
Proof.
  intros H. rewrite <- (firstn_skipn n l), snapshots_app in H.
  now apply Forall_app in H.
Qed.

(** A reset after the first [n] calls of a run, the other calls all being
    made afterwards. *)
Lemma trace_reset (e : env) (r : run) (w : world)
    (stuck : string -> bool) (n : nat) :
  let trace := _simulate_pipeline e r in
  let w' := perform_all (api_reset stuck (perform_all w (firstn n trace)))
                        (skipn n trace) in
  exists final,
    appended_runs trace = [final]
    /\ ((n < List.length trace)%nat -> history w' = [final])
    /\ ((n + 2 <= List.length trace)%nat -> builds w' = [final])
    /\ ((List.length trace <= n)%nat -> builds w' = [] /\ history w' = []).
Proof.
  intros trace w'.
  destruct (simulate_pipeline_world e r) as (pre & final & Et & Hpre & Ha & _).
  fold trace in Et, Ha.
  exists final. split; [exact Ha|]. split; [|split].
  - intros Hn. subst w'. rewrite history_perform_all. cbn [api_reset history app].
    pose proof (appended_runs_split n trace) as Hs.
    rewrite Ha in Hs. rewrite Et in Hs at 1.
    rewrite (appended_before_end pre final n Hpre) in Hs
      by (rewrite <- Et; exact Hn).
    now rewrite Hs.
  - intros Hn. subst w'.
    assert (Hids : Forall (fun x => run_id x = run_id r)
                          (snapshots (skipn n trace)))
      by (apply snapshots_skipn, simulate_pipeline_ids).
    rewrite (builds_after_snapshots r _ Hids). cbn [api_reset builds].
    assert (Hlen : (n <= List.length pre)%nat).
    { rewrite Et, length_app in Hn. cbn [List.length] in Hn. lia. }
    rewrite Et, skipn_app, snapshots_app, rev_app_distr.
    replace (n - List.length pre)%nat with 0%nat by lia.
    reflexivity.
  - intros Hn. subst w'. rewrite skipn_all2 by exact Hn. now split.
Qed.

(** ** Merges of two sequences of calls *)

Lemma interleave_app_left {A : Type} (p l1 l2 l : list A) :
  interleave l1 l2 l -> interleave (p ++ l1) l2 (p ++ l).
Proof. intros H. induction p as [|a p IH]; [exact H | now constructor]. Qed.

Lemma interleave_app_right {A : Type} (p l1 l2 l : list A) :
  interleave l1 l2 l -> interleave l1 (p ++ l2) (p ++ l).
Proof. intros H. induction p as [|a p IH]; [exact H | now constructor]. Qed.

Lemma interleave_flat_map {A B : Type} (f : A -> list B) (l1 l2 l : list A) :
  interleave l1 l2 l ->
  interleave (flat_map f l1) (flat_map f l2) (flat_map f l).
Proof.
  induction 1 as [|a l1 l2 l _ IH|a l1 l2 l _ IH]; cbn [flat_map].
  - constructor.
  - now apply interleave_app_left.
  - now apply interleave_app_right.
Qed.

Lemma interleave_filter {A : Type} (p : A -> bool) (l1 l2 l : list A) :
  interleave l1 l2 l -> interleave (filter p l1) (filter p l2) (filter p l).
Proof.
  induction 1 as [|a l1 l2 l _ IH|a l1 l2 l _ IH]; cbn [filter].
  - constructor.
  - destruct (p a); [now constructor | exact IH].
  - destruct (p a); [now constructor | exact IH].
Qed.

Lemma interleave_nil_r {A : Type} (l1 l : list A) :
  interleave l1 [] l -> l = l1.
Proof.
  revert l. induction l1 as [|a l1 IH]; intros l H; inversion H; subst; trivial.
  f_equal. now apply IH.
Qed.

Lemma interleave_nil_l {A : Type} (l2 l : list A) :
  interleave [] l2 l -> l = l2.
Proof.
  revert l. induction l2 as [|a l2 IH]; intros l H; inversion H; subst; trivial.
  f_equal. now apply IH.
Qed.

Lemma interleave_singletons {A : Type} (a b : A) (l : list A) :
  interleave [a] [b] l -> l = [a; b] \/ l = [b; a].
Proof.
  intros H. inversion H as [|x l1 l2 l' H'|x l1 l2 l' H']; subst.
  - left. f_equal. now apply interleave_nil_l.
  - right. f_equal. now apply interleave_nil_r.
Qed.

Lemma interleave_right_all {A : Type} (l : list A) : interleave [] l l.
Proof. induction l; now constructor. Qed.

Lemma interleave_concat {A : Type} (l1 l2 : list A) : interleave l1 l2 (l1 ++ l2).
Proof.
  rewrite <- (app_nil_r l1) at 1. apply interleave_app_left.
  apply interleave_right_all.
Qed.

(** ** More on starting a run *)

Lemma pipeline_steps_nonempty (j : string) :
  dict_get PIPELINE j FALLBACK_STEPS <> [].
Proof.
  unfold PIPELINE. cbn [dict_get].
  destruct (String.eqb "app-ci" j); [discriminate|].
  destruct (String.eqb "api-ci" j); discriminate.
Qed.

(** What a started run looks like, whatever the request was. *)
Lemma api_run_started (body : option json) (new_id : string) (now : Z)
    (w : world) (st : started) :
  api_run body new_id now w = Some st ->
  run_id (started_run st) = new_id
  /\ fresh (started_run st)
  /\ steps (started_run st) = dict_get PIPELINE (job (started_run st)) FALLBACK_STEPS
  /\ current_step (started_run st) = hd_error (steps (started_run st))
  /\ started_at (started_run st) = now / 1000000 * 1000000
  /\ started_world st = _save_current_snapshot (started_run st) w.
Proof.
  unfold api_run. intros H.
  destruct (match body with
            | Some j => if truthy j then j else JObj []
            | None => JObj []
            end) as [|s|members]; try discriminate.
  destruct (if truthy (obj_get members "job") then obj_get members "job"
            else JStr "app-ci") as [|j|kv]; try discriminate.
  injection H as <-. cbn [started_run started_world run_id steps job
                          current_step started_at].
  unfold fresh. now repeat split.
Qed.

(** X8. When the handler raises.  On request bodies made of [null], text
    and objects, [api_run] raises in two cases only: the body is a non-empty
    text (it has no [get]), or the [job] member is a non-empty object (it
    cannot be a key of the catalog).  In every other case a run is started. *)
Theorem api_run_raises_iff (body : option json) (new_id : string) (now : Z)
    (w : world) :
  api_run body new_id now w = None
  <-> (exists s, body = Some (JStr s) /\ s <> "")
      \/ (exists members kv,
            body = Some (JObj members)
            /\ obj_get members "job" = JObj kv /\ kv <> []).
Proof.
  assert (Hobj : forall members,
             api_run (Some (JObj members)) new_id now w = None
             <-> exists kv, obj_get members "job" = JObj kv /\ kv <> []).
  { intros members. unfold api_run.
    replace (if truthy (JObj members) then JObj members else JObj [])
      with (JObj members) by (destruct members; reflexivity).
    destruct (obj_get members "job") as [|s|[|p kv]] eqn:Ej; cbn [truthy].
    - split; [discriminate | intros (kv & [=] & _)].
    - destruct (negb (String.eqb s ""));
        (split; [discriminate | intros (kv & [=] & _)]).
    - split; [discriminate | intros (kv & [= <-] & Hne); now contradiction Hne].
    - split; [|reflexivity]. intros _. exists (p :: kv). now split. }
  destruct body as [[|s|members]|].
  - split; [discriminate|].
    intros [(s & [=] & _) | (members & kv & [=] & _)].
  - unfold api_run. cbn [truthy].
    destruct (String.eqb_spec s "") as [->|Hne]; cbn [negb].
    + split; [discriminate|].
      intros [(s & [= <-] & Hs) | (members & kv & [=] & _)]. now contradiction Hs.
    + split; [|reflexivity]. intros _. left. now exists s.
  - rewrite Hobj. split.
    + intros (kv & Hj & Hne). right. now exists members, kv.
    + intros [(s & [=] & _) | (members' & kv & [= <-] & Hj & Hne)].
      now exists kv.
  - split; [discriminate|].
    intros [(s & [=] & _) | (members & kv & [=] & _)].
Qed.

(** ** More on the statistics *)

Lemma calc_stats_same_windows (now : Z) (w1 w2 : world) :
  history w1 <> [] -> history w2 <> [] ->
  last7 now (history w1) = last7 now (history w2) ->
  today now (history w1) = today now (history w2) ->
  _calc_stats now w1 = _calc_stats now w2.
Proof.
  unfold _calc_stats. intros H1 H2 E7 Et.
  destruct (history w1) as [|a1 h1]; [contradiction|].
  destruct (history w2) as [|a2 h2]; [contradiction|].
  cbv zeta. now rewrite E7, Et.
Qed.

Lemma old_entry_other_day (now t : Z) :
  WEEK_US < now - t -> (date_of t =? date_of now) = false.
Proof.
  unfold date_of. change WEEK_US with 604800000000.
  change DAY_US with 86400000000. intros H. apply Z.eqb_neq.
  pose proof (Z.div_le_mono (t + 604800000000) now 86400000000
                ltac:(lia) ltac:(lia)) as M.
  replace (t + 604800000000) with (t + 7 * 86400000000) in M by lia.
  rewrite Z.div_add in M by lia. lia.
Qed.

Lemma finished_app (l1 l2 : list run) :
  finished (l1 ++ l2) = finished l1 ++ finished l2.
Proof. apply filter_app. Qed.

(** X12. An entry that has no finish time, or that finished more than
    seven days before [now], has no influence on any of the five
    statistics: with it or without it in the history (as long as the history
    is not left empty) the result is the same.  The current-runs list and the
    logs have no influence either. *)
Theorem calc_stats_ignores_old (now : Z) (h : run) (l1 l2 : list run)
    (w1 w2 : world) :
  finished_at h = None
  \/ (exists t, finished_at h = Some t /\ WEEK_US < now - t) ->
  history w1 = l1 ++ h :: l2 ->
  history w2 = l1 ++ l2 ->
  l1 ++ l2 <> [] ->
  _calc_stats now w1 = _calc_stats now w2.
Proof.
  intros Hold E1 E2 Hne.
  apply calc_stats_same_windows.
  - rewrite E1. now destruct l1.
  - now rewrite E2.
  - rewrite E1, E2. unfold last7. rewrite !finished_app, !filter_app.
    f_equal. unfold finished at 1. cbn [filter].
    destruct Hold as [Hn | (t & Ht & Hlate)].
    + now rewrite Hn.
    + rewrite Ht. cbn [is_some filter]. unfold finish_time at 1. rewrite Ht.
      destruct (Z.leb_spec (now - t) WEEK_US); [lia | reflexivity].
  - rewrite E1, E2. unfold today. rewrite !finished_app, !filter_app.
    f_equal. unfold finished at 1. cbn [filter].
    destruct Hold as [Hn | (t & Ht & Hlate)].
    + now rewrite Hn.
    + rewrite Ht. cbn [is_some filter]. unfold finish_time at 1. rewrite Ht.
      now rewrite old_entry_other_day.
Qed.

Lemma calc_stats_ignores_old_witness :
  _calc_stats demo_now (mkWorld [] (demo_history ++ [demo_old_entry]) [])
  = _calc_stats demo_now (mkWorld [] demo_history []).
Proof.
  apply (calc_stats_ignores_old demo_now demo_old_entry demo_history []).
  - right. exists (demo_t0 - 8 * DAY_US). split; [reflexivity|].
    vm_compute. reflexivity.
  - reflexivity.
  - cbn [history]. now rewrite app_nil_r.
  - discriminate.
Defined.

Lemma calc_stats_avg_of (now : Z) (w : world) (st : stats) :
  _calc_stats now w = Some st ->
  avg_duration_of (last7 now (history w)) = Some (avg_duration st).
Proof.
  intros H. destruct (history w) as [|h hist] eqn:Eh.
  - rewrite (calc_stats_empty_history now w st Eh H). reflexivity.
  - rewrite <- Eh. apply (calc_stats_fields now w st); [|exact H].
    rewrite Eh. discriminate.
Qed.

Lemma durations_filter (win : list run) :
  durations win = filter (fun d => negb (d =? 0)) (spec_durations win).
Proof.
  unfold durations, spec_durations.
  induction win as [|h win IH]; [reflexivity|].
  cbn [flat_map]. rewrite filter_app, IH. f_equal.
  destruct (duration_s h) as [d|]; [|reflexivity].
  cbn [filter]. now destruct (d =? 0).
Qed.

Lemma filter_all_true {A : Type} (p : A -> bool) (l : list A) :
  (forall x, In x l -> p x = true) -> filter p l = l.
Proof.
  induction l as [|a l IH]; intros H; [reflexivity|].
  cbn [filter]. rewrite (H a) by now left.
  f_equal. apply IH. intros x Hx. apply H. now right.
Qed.

Lemma spec_durations_In (win : list run) (d : Z) :
  In d (spec_durations win) <-> exists h, In h win /\ duration_s h = Some d.
Proof.
  unfold spec_durations. rewrite in_flat_map. split.
  - intros (h & Hh & Hd). exists h. split; trivial.
    destruct (duration_s h) as [d'|]; [|destruct Hd].
    destruct Hd as [->|[]]. reflexivity.
  - intros (h & Hh & Hd). exists h. split; trivial. rewrite Hd. now left.
Qed.

(** X13. What [avg_duration] averages: the durations of the window that
    are present and not zero.  An entry whose duration is missing or [0] can
    be taken out of the window without changing the average, and on a window
    in which no duration is [0] the average is the integer mean of all the
    durations present. *)
Theorem avg_duration_skips_zero (now : Z) (w : world) :
  let win := last7 now (history w) in
  durations win = filter (fun d => negb (d =? 0)) (spec_durations win)
  /\ (forall l1 h l2,
        duration_s h = None \/ duration_s h = Some 0 ->
        avg_duration_of (l1 ++ h :: l2) = avg_duration_of (l1 ++ l2))
  /\ ((forall h, In h win -> duration_s h <> Some 0) ->
        avg_duration_of win = spec_avg_duration win
        /\ forall st, _calc_stats now w = Some st ->
                      spec_avg_duration win = Some (avg_duration st)).
Proof.
  intros win. split; [apply durations_filter|]. split.
  - intros l1 h l2 Hh. unfold avg_duration_of, durations.
    rewrite !flat_map_app. cbn [flat_map].
    now destruct Hh as [-> | ->].
  - intros Hnz.
    assert (E : avg_duration_of win = spec_avg_duration win).
    { unfold avg_duration_of, spec_avg_duration. rewrite durations_filter.
      rewrite filter_all_true; [now destruct (spec_durations win)|].
      intros d Hd. apply spec_durations_In in Hd as (h & Hh & Hd).
      apply negb_true_iff, Z.eqb_neq. intros ->. now apply (Hnz h). }
    split; [exact E|]. intros st Hst. rewrite <- E.
    now apply calc_stats_avg_of.
Qed.

Lemma avg_duration_skips_zero_witness :
  let hist := [ demo_entry "a1" "app-ci" "failed" demo_t0 4;
                demo_entry "b2" "app-ci" "success" (demo_t0 + FIVE_MINUTES) 10 ] in
  avg_duration_of (last7 demo_now hist) = Some 7
  /\ spec_avg_duration (last7 demo_now hist) = Some 7.
Proof.
  intros hist.
  destruct (avg_duration_skips_zero demo_now (mkWorld [] hist [])) as (_ & _ & H).
  assert (Hnz : forall h, In h (last7 demo_now hist) -> duration_s h <> Some 0).
  { intros h Hh. apply last7_In in Hh as [[<-|[<-|[]]] _]; discriminate. }
  destruct (H Hnz) as [E _]. cbn [history] in E.
  split; [|rewrite <- E]; vm_compute; reflexivity.
Defined.

Lemma today_in_window (now t : Z) :
  date_of t = date_of now -> now - t <= WEEK_US.
Proof.
  unfold date_of. change WEEK_US with 604800000000.
  change DAY_US with 86400000000. intros H.
  pose proof (Z.div_mod t 86400000000 ltac:(lia)).
  pose proof (Z.div_mod now 86400000000 ltac:(lia)).
  pose proof (Z.mod_pos_bound t 86400000000 ltac:(lia)).
  pose proof (Z.mod_pos_bound now 86400000000 ltac:(lia)).
  lia.
Qed.

Lemma filter_length_impl {A : Type} (p q : A -> bool) (l : list A) :
  (forall x, p x = true -> q x = true) ->
  (List.length (filter p l) <= List.length (filter q l))%nat.
Proof.
  intros H. induction l as [|a l IH]; [reflexivity|].
  cbn [filter]. destruct (p a) eqn:Hp.
  - rewrite (H a Hp). cbn [List.length]. lia.
  - destruct (q a); cbn [List.length]; lia.
Qed.

(** X14. Every run counted in [deploys_today] lies in the seven-day
    window: a finish time on the current day is less than a day away from
    [now].  So [deploys_today] never exceeds the number of runs the rates
    are computed over, which never exceeds the length of the history. *)
Theorem deploys_today_within_window (now : Z) (w : world) :
  (forall h, In h (today now (history w)) -> In h (last7 now (history w)))
  /\ forall st, _calc_stats now w = Some st ->
       0 <= deploys_today st <= len (last7 now (history w))
       /\ len (last7 now (history w)) <= len (history w).
Proof.
  assert (Himpl : forall h,
             (date_of (finish_time h) =? date_of now) = true ->
             (now - finish_time h <=? WEEK_US) = true).
  { intros h Hd. apply Z.eqb_eq in Hd. apply Z.leb_le.
    now apply today_in_window. }
  split.
  - intros h Hh. unfold today, last7 in *. apply filter_In in Hh as [Hf Hd].
    apply filter_In. split; [exact Hf | now apply Himpl].
  - intros st Hst.
    assert (Hlen : len (today now (history w)) <= len (last7 now (history w))).
    { unfold len, today, last7.
      pose proof (filter_length_impl _ _ (finished (history w)) Himpl). lia. }
    assert (Hhist : len (last7 now (history w)) <= len (history w)).
    { unfold len, last7, finished.
      pose proof (filter_length_le (fun h => now - finish_time h <=? WEEK_US)
                    (filter (fun h => is_some (finished_at h)) (history w))).
      pose proof (filter_length_le (fun h => is_some (finished_at h)) (history w)).
      lia. }
    split; [|exact Hhist].
    destruct (history w) as [|a hist] eqn:Eh.
    + rewrite (calc_stats_empty_history now w st Eh Hst). cbn. unfold len. cbn. lia.
    + assert (Hne : history w <> []) by (rewrite Eh; discriminate).
      destruct (calc_stats_fields now w st Hne Hst) as (_ & _ & _ & _ & Hd).
      rewrite Hd, Eh. unfold len in *. lia.
Qed.

(** ** Signs of the floats of the statistics *)

(** Rounding keeps the sign it is given. *)
Lemma binary_round_aux_sign (s : bool) (m e : Z) (l : location) :
  match binary_round_aux prec emax s m e l with
  | S754_zero s' | S754_finite s' _ _ | S754_infinity s' => s' = s
  | S754_nan => True
  end.
Proof.
  unfold binary_round_aux.
  destruct (shr_fexp prec emax m e l) as [mrs' e'].
  destruct (shr_fexp prec emax _ e' loc_Exact) as [mrs'' e''].
  destruct (shr_m mrs''); trivial.
  now destruct (e'' <=? emax - prec).
Qed.

Lemma binary_round_sign (s : bool) (m : positive) (e : Z) :
  match binary_round prec emax s m e with
  | S754_zero s' | S754_finite s' _ _ | S754_infinity s' => s' = s
  | S754_nan => True
  end.
Proof.
  unfold binary_round. destruct (shl_align m e _) as [mz ez].
  apply binary_round_aux_sign.
Qed.

Lemma sign_clear_nonneg (x : float) : sign_clear x -> nonneg x.
Proof. now destruct x. Qed.

Lemma of_int_sign_clear (z : Z) : 0 <= z -> sign_clear (of_int z).
Proof.
  intros Hz. unfold of_int, binary_normalize.
  destruct z as [|p|p]; [reflexivity | | lia].
  pose proof (binary_round_sign false p 0) as H.
  now destruct (binary_round prec emax false p 0).
Qed.

Lemma fdiv_nonneg (x y : float) :
  nonneg x -> sign_clear y -> nonneg (fdiv x y).
Proof.
  unfold fdiv, SFdiv.
  destruct x as [sx|sx| |sx mx ex], y as [sy|sy| |sy my ey];
    cbn [nonneg sign_clear]; intros Hx Hy; subst; trivial.
  destruct (SFdiv_core_binary prec emax (Zpos mx) ex (Zpos my) ey)
    as [[mz ez] lz].
  pose proof (binary_round_aux_sign (xorb false false) mz ez lz) as H.
  now destruct (binary_round_aux prec emax (xorb false false) mz ez lz).
Qed.

Lemma fadd_nonneg (x y : float) : nonneg x -> nonneg y -> nonneg (fadd x y).
Proof.
  unfold fadd, SFadd.
  destruct x as [sx|sx| |sx mx ex], y as [sy|sy| |sy my ey];
    cbn [nonneg]; intros Hx Hy; subst; trivial;
    try reflexivity; try (now destruct sx, sy).
  cbn [cond_Zopp Z.add binary_normalize].
  match goal with
    | |- context [binary_round prec emax false ?m ?e] =>
      pose proof (binary_round_sign false m e) as H;
      now destruct (binary_round prec emax false m e)
  end.
Qed.

Lemma fsum_nonneg (xs : list float) : Forall nonneg xs -> nonneg (fsum xs).
Proof.
  unfold fsum. assert (H0 : nonneg zero) by exact I. revert H0.
  generalize zero. induction xs as [|x xs IH]; intros acc Hacc Hxs; [exact Hacc|].
  inversion_clear Hxs as [|? ? Hx Hrest]. cbn [fold_left].
  apply IH; [now apply fadd_nonneg | exact Hrest].
Qed.

Lemma ratio_nonneg (a b : Z) : 0 <= a -> 0 < b -> nonneg (ratio a b).
Proof.
  intros Ha Hb. unfold ratio.
  destruct a as [|p|p]; [exact I | | lia].
  destruct b as [|q|q]; try lia.
  now apply fdiv_nonneg.
Qed.

Lemma py_int_nonneg (x : float) (z : Z) : nonneg x -> py_int x = Some z -> 0 <= z.
Proof.
  destruct x as [s|s| |s m e]; unfold nonneg, py_int; try discriminate.
  - intros _ [= <-]. lia.
  - intros ->.
    set (a := if 0 <=? e then Z.pos m * 2 ^ e else Z.pos m / 2 ^ (- e)).
    assert (Ha : 0 <= a).
    { subst a.
      assert (Hp : 0 <= 2 ^ e) by (apply Z.pow_nonneg; lia).
      assert (Hq : 0 <= 2 ^ (- e)) by (apply Z.pow_nonneg; lia).
      destruct (0 <=? e).
      - apply Z.mul_nonneg_nonneg; [lia | exact Hp].
      - apply Z_div_nonneg_nonneg; [lia | exact Hq]. }
    clearbody a. intros [= <-]. exact Ha.
Qed.

Lemma int_truediv_ratio (a b : Z) (q : float) :
  int_truediv a b = Some q -> q = ratio a b /\ b <> 0.
Proof.
  unfold int_truediv. destruct (Z.eqb_spec b 0); [discriminate|].
  destruct (truediv_overflows a b); [discriminate|].
  intros [= <-]. now split.
Qed.

Lemma spec_minutes_nonneg (d : Z) (m : float) :
  0 < d -> spec_minutes d = Some m -> nonneg m.
Proof.
  intros Hd. unfold spec_minutes.
  destruct (int_truediv d 1000000) as [secs|] eqn:E; [|discriminate].
  intros [= <-]. apply int_truediv_ratio in E as [-> _].
  apply (fdiv_nonneg (ratio d 1000000) (of_int 60)).
  - apply ratio_nonneg; lia.
  - apply of_int_sign_clear. lia.
Qed.

Lemma mapM_spec_minutes_nonneg (ds : list Z) :
  Forall (fun d => 0 < d) ds ->
  forall ms, mapM spec_minutes ds = Some ms -> Forall nonneg ms.
Proof.
  induction 1 as [|d ds Hd _ IH]; intros ms; cbn [mapM].
  - intros [= <-]. constructor.
  - destruct (spec_minutes d) as [m|] eqn:Em; [|discriminate].
    destruct (mapM spec_minutes ds) as [ms'|]; [|discriminate].
    intros [= <-]. constructor; [now apply (spec_minutes_nonneg d) | now apply IH].
Qed.

Lemma mean_minutes_nonneg (ms : list float) (z : Z) :
  Forall nonneg ms -> mean_minutes ms = Some z -> 0 <= z.
Proof.
  intros Hms. unfold mean_minutes. destruct ms as [|m ms]; [intros [= <-]; lia|].
  apply py_int_nonneg, fdiv_nonneg.
  - now apply fsum_nonneg.
  - apply of_int_sign_clear. unfold len. lia.
Qed.

Lemma recoveries_positive (win todo : list run) :
  Forall (fun d => 0 < d) (recoveries_in win todo).
Proof.
  pose proof (recoveries_in_spec win todo) as H.
  induction H as [|f d fs ds (s & _ & Hq & -> & _) _ IH]; constructor; trivial.
  unfold qualifies in Hq. apply andb_true_iff in Hq as [_ Hlt].
  apply Z.ltb_lt in Hlt. lia.
Qed.

Lemma zsum_nonneg (xs : list Z) : Forall (fun d => 0 <= d) xs -> 0 <= zsum xs.
Proof.
  unfold zsum. intros Hxs.
  assert (H : forall acc, 0 <= acc -> 0 <= fold_left Z.add xs acc).
  { induction Hxs as [|x xs Hx _ IH]; intros acc Hacc; [exact Hacc|].
    cbn [fold_left]. apply IH. lia. }
  apply H. lia.
Qed.

(** X15. The two means are never negative.  Whenever the statistics are
    returned, [mttr_minutes] is at least [0] (every recovery time is
    positive, and rounding and truncation keep the sign), and so is
    [avg_duration] when no duration of the window is negative. *)
Theorem calc_stats_nonnegative (now : Z) (w : world) (st : stats) :
  _calc_stats now w = Some st ->
  0 <= mttr_minutes st
  /\ Forall (fun d => 0 < d) (recoveries (last7 now (history w)))
  /\ ((forall h d, In h (last7 now (history w)) -> duration_s h = Some d -> 0 <= d) ->
      0 <= avg_duration st).
Proof.
  intros Hst. set (win := last7 now (history w)).
  assert (Hpos : Forall (fun d => 0 < d) (recoveries win))
    by apply recoveries_positive.
  split; [|split; [exact Hpos|]].
  - pose proof (calc_stats_mttr_of now w st Hst) as Hm. fold win in Hm.
    rewrite mttr_of_spec in Hm by apply last7_finished.
    unfold mean_of_recoveries in Hm.
    destruct (mapM spec_minutes (recoveries win)) as [ms|] eqn:Ems; [|discriminate].
    apply (mean_minutes_nonneg ms); [|exact Hm].
    now apply (mapM_spec_minutes_nonneg (recoveries win)).
  - intros Hd. pose proof (calc_stats_avg_of now w st Hst) as Ha. fold win in Ha.
    unfold avg_duration_of in Ha.
    destruct (durations win) as [|d ds] eqn:Eds; [injection Ha as <-; lia|].
    destruct (int_truediv (zsum (d :: ds)) (len (d :: ds))) as [q|] eqn:Eq;
      [|discriminate].
    apply int_truediv_ratio in Eq as [-> _].
    refine (py_int_nonneg _ _ _ Ha). apply ratio_nonneg.
    + apply zsum_nonneg. rewrite <- Eds, durations_filter.
      apply Forall_forall. intros x Hx. apply filter_In in Hx as [Hx _].
      apply spec_durations_In in Hx as (h & Hh & Hx). now apply (Hd h).
    + unfold len. cbn [List.length]. lia.
Qed.

Lemma calc_stats_nonnegative_witness :
  exists st,
    _calc_stats demo_now (mkWorld [] demo_history []) = Some st
    /\ 0 <= mttr_minutes st.
Proof.
  assert (H : _calc_stats demo_now (mkWorld [] demo_history [])
              = Some (mkStats 2 (PyFloat (of_int 50)) (PyFloat (of_int 50)) 10 5))
    by (vm_compute; reflexivity).
  eexists. split; [exact H|].
  exact (proj1 (calc_stats_nonnegative demo_now (mkWorld [] demo_history []) _ H)).
Defined.

(** ** The log of a run *)

(** The log writes of the calls begin with the start line and end with the
    finish line, which names the status of the record appended; all of them
    go to the run's own file. *)
Lemma trace_log_frame (e : env) (r : run) :
  exists final middle ts,
    appended_runs (_simulate_pipeline e r) = [final]
    /\ map fst (log_lines (_simulate_pipeline e r))
       = repeat (run_id r) (List.length (log_lines (_simulate_pipeline e r)))
    /\ map snd (log_lines (_simulate_pipeline e r))
       = mkLine (_utcnow_iso e 1)
           ("Run " ++ run_id r ++ " started (job=" ++ job r ++ ")")
         :: middle
         ++ [mkLine ts ("Run " ++ run_id r ++ " finished with status="
                        ++ status final)].
Proof.
  assert (Htags : map fst (log_lines (_simulate_pipeline e r))
                  = repeat (run_id r)
                      (List.length (log_lines (_simulate_pipeline e r)))).
  { destruct (simulate_pipeline_ids e r) as [_ Ht].
    induction Ht as [|p l Hp _ IH]; [reflexivity|].
    cbn [map List.length repeat]. now rewrite Hp, IH. }
  destruct (all_pass_or_first_failure e (steps r) 0)
    as [Hpass | (pre & s & post & Hsteps & Hpre & Hfail)].
  - exists (succeeded_run e r (2 + 3 * List.length (steps r))),
           (map snd (log_lines (passed_steps e r 0 2 (steps r)))),
           (_utcnow_iso e (2 + 3 * List.length (steps r) + 2)).
    split; [|split; [exact Htags|]].
    + rewrite trace_all_pass by exact Hpass.
      change (start_line e r :: ?l) with ([start_line e r] ++ l).
      now rewrite !appended_runs_app, passed_steps_appended.
    + rewrite trace_all_pass by exact Hpass.
      change (start_line e r :: ?l) with ([start_line e r] ++ l).
      rewrite !log_lines_app, !map_app. reflexivity.
  - cbn [Nat.add] in Hfail.
    exists (failed_run e r (2 + 3 * List.length pre)),
           (map snd (log_lines (passed_steps e r 0 2 pre
                                ++ step_begin e r (List.length pre)
                                     (2 + 3 * List.length pre) s))
            ++ [mkLine (_utcnow_iso e (2 + 3 * List.length pre + 4))
                  ("Step '" ++ s ++ "' FAILED")]),
           (_utcnow_iso e (2 + 3 * List.length pre + 5)).
    split; [|split; [exact Htags|]].
    + rewrite (trace_first_failure e r pre s post Hsteps Hpre Hfail).
      change (start_line e r :: ?l) with ([start_line e r] ++ l).
      now rewrite !appended_runs_app, passed_steps_appended.
    + rewrite (trace_first_failure e r pre s post Hsteps Hpre Hfail).
      change (start_line e r :: ?l) with ([start_line e r] ++ l).
      rewrite !log_lines_app, !map_app, <- !app_assoc. reflexivity.
Qed.

Lemma deploys_today_within_window_witness :
  exists st,
    _calc_stats demo_now (mkWorld [] (demo_history ++ [demo_old_entry]) [])
    = Some st
    /\ deploys_today st = 2
    /\ len (last7 demo_now (demo_history ++ [demo_old_entry])) = 2
    /\ len (demo_history ++ [demo_old_entry]) = 3.
Proof.
  assert (H : _calc_stats demo_now (mkWorld [] (demo_history ++ [demo_old_entry]) [])
              = Some (mkStats 2 (PyFloat (of_int 50)) (PyFloat (of_int 50)) 10 5))
    by (vm_compute; reflexivity).
  eexists. split; [exact H|].
  destruct (deploys_today_within_window demo_now
              (mkWorld [] (demo_history ++ [demo_old_entry]) [])) as [_ Hb].
  destruct (Hb _ H) as [[_ Hle] _]. cbn [deploys_today history] in Hle.
  split; [reflexivity|]. split; [|reflexivity].
  assert (Hge : len (last7 demo_now (demo_history ++ [demo_old_entry])) <= 2)
    by (vm_compute; discriminate).
  lia.
Defined.

(** ** Log writes that raise *)

Lemma surrogate_lead_ascii_l (c d : ascii) :
  (nat_of_ascii c <? 128)%nat = true -> surrogate_lead c d = false.
Proof.
  unfold surrogate_lead. intros H. apply Nat.ltb_lt in H.
  destruct (Nat.eqb_spec (nat_of_ascii c) 237) as [E|_]; [lia | reflexivity].
Qed.

Lemma surrogate_lead_ascii_r (c d : ascii) :
  (nat_of_ascii d <? 128)%nat = true -> surrogate_lead c d = false.
Proof.
  unfold surrogate_lead. intros H. apply Nat.ltb_lt in H.
  destruct (Nat.leb_spec 160 (nat_of_ascii d)) as [Hle|_]; [lia|].
  now rewrite andb_false_r.
Qed.

Lemma encodable_cons (c : ascii) (s : string) :
  encodable (String c s)
  = match s with
    | EmptyString => true
    | String d _ => negb (surrogate_lead c d) && encodable s
    end.
Proof. reflexivity. Qed.

Lemma ascii_only_app (a b : string) :
  ascii_only (a ++ b) = ascii_only a && ascii_only b.
Proof.
  induction a as [|c a IH]; [reflexivity|].
  cbn [append ascii_only]. now rewrite IH, andb_assoc.
Qed.

(** A text of ASCII characters can be encoded, and does not change whether
    the text in front of it or behind it can. *)
Lemma encodable_app_ascii_l (a b : string) :
  ascii_only a = true -> encodable (a ++ b) = encodable b.
Proof.
  induction a as [|c a IH]; intros Ha; [reflexivity|].
  cbn [ascii_only] in Ha. apply andb_true_iff in Ha as [Hc Ha].
  cbn [append]. rewrite encodable_cons.
  destruct (a ++ b)%string as [|d t] eqn:E.
  - destruct a; [|discriminate]. cbn [append] in E. now subst b.
  - rewrite (surrogate_lead_ascii_l c d Hc). cbn [negb andb].
    now apply IH.
Qed.

Lemma ascii_only_encodable (a : string) :
  ascii_only a = true -> encodable a = true.
Proof.
  intros Ha. pose proof (encodable_app_ascii_l a EmptyString Ha) as H.
  cbn [encodable] in H. rewrite <- H. f_equal.
  clear. induction a as [|c a IH]; [reflexivity|]. cbn [append]. now rewrite <- IH.
Qed.

Lemma encodable_app_ascii_r (j a : string) :
  ascii_only a = true -> encodable (j ++ a) = encodable j.
Proof.
  intros Ha. induction j as [|c j IH]; [now apply ascii_only_encodable|].
  cbn [append]. rewrite !encodable_cons.
  destruct j as [|d j'].
  - cbn [append]. destruct a as [|d a']; [reflexivity|].
    cbn [ascii_only] in Ha. apply andb_true_iff in Ha as [Hd Ha'].
    rewrite (surrogate_lead_ascii_r c d Hd). cbn [negb andb].
    apply ascii_only_encodable. cbn [ascii_only]. now rewrite Hd, Ha'.
  - cbn [append] in *. now rewrite IH.
Qed.

(** A text can be encoded only if every part of it can. *)
Lemma encodable_suffix (x y : string) :
  encodable (x ++ y) = true -> encodable y = true.
Proof.
  induction x as [|c x IH]; intros H; [exact H|].
  cbn [append] in H. rewrite encodable_cons in H.
  destruct (x ++ y)%string as [|d t] eqn:E.
  - destruct x; [|discriminate]. cbn [append] in E. now subst y.
  - apply andb_true_iff in H as [_ H]. now apply IH.
Qed.

Lemma encodable_prefix (j b : string) :
  encodable (j ++ b) = true -> encodable j = true.
Proof.
  induction j as [|c j IH]; intros H; [reflexivity|].
  cbn [append] in H. rewrite encodable_cons in *.
  destruct j as [|d j']; [reflexivity|].
  cbn [append] in *. apply andb_true_iff in H as [Hl H].
  rewrite Hl. cbn [andb]. now apply IH.
Qed.

Lemma lone_surrogate_not_encodable : encodable lone_surrogate = false.
Proof. reflexivity. Qed.

Lemma hex_digit_ascii (c : ascii) :
  hex_digit c = true -> (nat_of_ascii c <? 128)%nat = true.
Proof.
  unfold hex_digit. intros H. apply existsb_exists in H as (d & Hin & Heq).
  apply Ascii.eqb_eq in Heq. subst d. cbn [list_ascii_of_string In] in Hin.
  repeat (destruct Hin as [<-|Hin]; [reflexivity|]). destruct Hin.
Qed.

Lemma hex8_ascii (s : string) : hex8 s = true -> ascii_only s = true.
Proof.
  unfold hex8. intros H. apply andb_true_iff in H as [_ H].
  induction s as [|c s IH]; [reflexivity|].
  cbn [list_ascii_of_string forallb] in H. apply andb_true_iff in H as [Hc Hs].
  cbn [ascii_only]. now rewrite (hex_digit_ascii c Hc), IH.
Qed.

Lemma string_of_uint_ascii (d : Decimal.uint) :
  ascii_only (DecimalString.NilEmpty.string_of_uint d) = true.
Proof. induction d; cbn [DecimalString.NilEmpty.string_of_uint ascii_only]; trivial. Qed.

Lemma string_of_Z_ascii (z : Z) : ascii_only (string_of_Z z) = true.
Proof.
  unfold string_of_Z, DecimalString.NilZero.string_of_int.
  destruct (Z.to_int z) as [d|d]; unfold DecimalString.NilZero.string_of_uint.
  - destruct d; try reflexivity; apply (string_of_uint_ascii (_ d)).
  - cbn [ascii_only]. destruct d; try reflexivity; apply (string_of_uint_ascii (_ d)).
Qed.

(** The simulated output of a step is a text of ASCII characters. *)
Lemma simulate_step_output_ascii (step : string) (k : Z) :
  ascii_only (_simulate_step_output step k) = true.
Proof.
  unfold _simulate_step_output.
  repeat match goal with
         | |- context [if ?b then _ else _] => destruct b
         end;
    rewrite ?ascii_only_app, ?string_of_Z_ascii; reflexivity.
Qed.

Lemma no_raise_app (l1 l2 : list effect) :
  no_raise (l1 ++ l2) = no_raise l1 && no_raise l2.
Proof. apply forallb_app. Qed.

Lemma write_ascii_no_raise (rid : string) (ts : Z) (text : string) :
  ascii_only text = true -> write_raises (WriteLog rid (mkLine ts text)) = false.
Proof. intros H. cbn. now rewrite ascii_only_encodable. Qed.

Lemma no_raise_cons (ef : effect) (efs : list effect) :
  no_raise (ef :: efs) = negb (write_raises ef) && no_raise efs.
Proof. reflexivity. Qed.

(** With an id and step names of ASCII characters no write of the loop, and
    none after it, raises. *)
Lemma run_steps_no_raise (e : env) (start : Z) (todo : list string) :
  forall r i tick,
    ascii_only (run_id r) = true ->
    forallb ascii_only todo = true ->
    no_raise (run_steps e start r i tick todo) = true.
Proof.
  induction todo as [|step todo IH]; intros r i tick Hid Hsteps.
  - cbn [run_steps]. rewrite !no_raise_cons.
    rewrite write_ascii_no_raise; [reflexivity|].
    rewrite !ascii_only_app, Hid. reflexivity.
  - cbn [forallb] in Hsteps. apply andb_true_iff in Hsteps as [Hs Htodo].
    cbn [run_steps]. rewrite !no_raise_cons.
    rewrite !write_ascii_no_raise;
      [|apply simulate_step_output_ascii
       |rewrite !ascii_only_app, Hs; reflexivity].
    change (write_raises (SaveSnapshot (set_current_step r (Some step)))) with false.
    change (write_raises (Sleep (step_sleep e i step))) with false.
    cbn [negb andb].
    destruct (step_failed e i step).
    + cbv zeta. rewrite !no_raise_cons.
      rewrite !write_ascii_no_raise; [reflexivity| |];
        rewrite !ascii_only_app, ?Hs, ?Hid; reflexivity.
    + rewrite no_raise_cons.
      rewrite write_ascii_no_raise by (rewrite !ascii_only_app, Hs; reflexivity).
      cbn [negb andb]. now apply IH.
Qed.

(** For a run whose id and step names are ASCII the writes can all be encoded
    exactly when the job name can: the start line is the only text that
    holds it. *)
Lemma writes_encodable_job (e : env) (r : run) :
  ascii_only (run_id r) = true ->
  forallb ascii_only (steps r) = true ->
  writes_encodable e r = encodable (job r).
Proof.
  intros Hid Hsteps. unfold writes_encodable, _simulate_pipeline.
  cbv zeta. rewrite no_raise_cons.
  rewrite (run_steps_no_raise e _ (steps r) r 0 2 Hid Hsteps), andb_true_r.
  cbn [write_raises line_text]. rewrite negb_involutive.
  rewrite (encodable_app_ascii_l "Run ") by reflexivity.
  rewrite (encodable_app_ascii_l (run_id r)) by exact Hid.
  rewrite (encodable_app_ascii_l " started (job=") by reflexivity.
  now apply encodable_app_ascii_r.
Qed.

(** Whatever the id and the steps, a job name that cannot be encoded makes
    the start line raise. *)
Lemma start_line_raises (e : env) (r : run) :
  encodable (job r) = false -> write_raises (start_line e r) = true.
Proof.
  intros Hjob. cbn [start_line write_raises line_text].
  destruct (encodable ("Run " ++ run_id r ++ " started (job=" ++ job r ++ ")"))
    eqn:E; [|reflexivity].
  apply (encodable_suffix "Run ") in E. apply encodable_suffix in E.
  apply (encodable_suffix " started (job=") in E. apply encodable_prefix in E.
  congruence.
Qed.

Lemma pipeline_steps_ascii (j : string) :
  forallb ascii_only (dict_get PIPELINE j FALLBACK_STEPS) = true.
Proof.
  unfold PIPELINE. cbn [dict_get].
  destruct (String.eqb "app-ci" j); [reflexivity|].
  destruct (String.eqb "api-ci" j); reflexivity.
Qed.

(** The calls completed. *)
Lemma completed_no_raise (efs : list effect) :
  no_raise efs = true -> completed efs = efs.
Proof.
  induction efs as [|ef efs IH]; intros H; [reflexivity|].
  cbn [no_raise forallb] in H. apply andb_true_iff in H as [Hef H].
  apply negb_true_iff in Hef. cbn [completed]. rewrite Hef. f_equal. now apply IH.
Qed.

Lemma completed_before_tail (pre tail : list effect) :
  no_raise pre = false ->
  exists ef rest,
    pre = completed (pre ++ tail) ++ ef :: rest /\ write_raises ef = true.
Proof.
  induction pre as [|a pre IH]; intros H; [discriminate|].
  cbn [no_raise forallb] in H. cbn [app completed].
  destruct (write_raises a) eqn:Ea.
  - now exists a, pre.
  - cbn [negb andb] in H. destruct (IH H) as (ef & rest & E & Hef).
    exists ef, rest. split; [|exact Hef]. cbn [app]. now rewrite <- E.
Qed.

Lemma run_thread_complete (e : env) (r : run) :
  writes_encodable e r = true -> run_thread e r = _simulate_pipeline e r.
Proof. apply completed_no_raise. Qed.

Lemma writes_succeed_split (e : env) (r : run) :
  writes_succeed e r = true -> hex8 (run_id r) = true /\ writes_encodable e r = true.
Proof. apply andb_true_iff. Qed.

(** When a write raises, the thread stops in front of it, and so before the
    last snapshot and the append. *)
Lemma run_thread_cut (e : env) (r : run) (body : list effect) (final : run) :
  _simulate_pipeline e r = body ++ [SaveSnapshot final; AppendHistory final] ->
  writes_encodable e r = false ->
  exists ef rest, body = run_thread e r ++ ef :: rest /\ write_raises ef = true.
Proof.
  intros E H. unfold writes_encodable, run_thread in *. rewrite E in *.
  rewrite no_raise_app in H. cbn in H. rewrite andb_true_r in H.
  now apply completed_before_tail.
Qed.

Lemma run_thread_job_raises (e : env) (r : run) :
  encodable (job r) = false -> writes_encodable e r = false /\ run_thread e r = [].
Proof.
  intros Hjob. pose proof (start_line_raises e r Hjob) as Hs.
  unfold writes_encodable, run_thread. rewrite simulate_pipeline_unfold.
  cbn [no_raise forallb completed]. now rewrite Hs.
Qed.

Lemma snapshots_prefix (P : run -> Prop) (l1 l2 : list effect) :
  Forall P (snapshots (l1 ++ l2)) -> Forall P (snapshots l1).
Proof. rewrite snapshots_app. intros H. now apply Forall_app in H. Qed.

Lemma appended_runs_prefix (l1 l2 : list effect) :
  appended_runs (l1 ++ l2) = [] -> appended_runs l1 = [].
Proof. rewrite appended_runs_app. intros H. now apply app_eq_nil in H. Qed.

Lemma log_lines_prefix (P : string * log_line -> Prop) (l1 l2 : list effect) :
  Forall P (log_lines (l1 ++ l2)) -> Forall P (log_lines l1).
Proof. rewrite log_lines_app. intros H. now apply Forall_app in H. Qed.

(** What a thread that stops at a write has done: no append, and only
    snapshots that carry the id and the status the run started with. *)
Lemma run_thread_stopped (e : env) (r : run) :
  writes_encodable e r = false ->
  appended_runs (run_thread e r) = []
  /\ Forall (fun x => status x = status r) (snapshots (run_thread e r))
  /\ Forall (fun x => run_id x = run_id r) (snapshots (run_thread e r))
  /\ Forall (fun p => fst p = run_id r) (log_lines (run_thread e r))
  /\ exists ef rest, _simulate_pipeline e r = run_thread e r ++ ef :: rest
                     /\ write_raises ef = true.
Proof.
  intros H.
  destruct (trace_appends_once e r (mkWorld [] [] []))
    as (body & final & E & Ha & _ & _ & Hst & _).
  cbv zeta in E.
  destruct (run_thread_cut e r body final E H) as (ef & rest & Eb & Hef).
  destruct (simulate_pipeline_ids e r) as [Hids Htags].
  assert (Et : _simulate_pipeline e r
               = run_thread e r
                 ++ ef :: rest ++ [SaveSnapshot final; AppendHistory final]).
  { rewrite E, Eb, <- app_assoc. reflexivity. }
  rewrite Eb in Ha, Hst.
  split; [now apply appended_runs_prefix in Ha|].
  split; [now apply snapshots_prefix in Hst|].
  split; [rewrite Et in Hids; now apply snapshots_prefix in Hids|].
  split; [rewrite Et in Htags; now apply log_lines_prefix in Htags|].
  exists ef, (rest ++ [SaveSnapshot final; AppendHistory final]). now split.
Qed.

(** ** The engine thread *)

(** C3, as the code has it.  The thread of a run whose log writes can all be
    encoded appends exactly one entry to the history, as its last call, the
    entry having status [success] or [failed]; until then the history is as
    it was and every snapshot carries the status the run started with.  The
    thread of a run one of whose log writes raises appends nothing, ever:
    the exception ends it in front of the final snapshot and the append.
    This is the case of every run whose job name cannot be encoded, and
    [api_run] starts such a run for the request [lone_surrogate_request]:
    the thread makes no call at all, the history stays as it was and the
    run stays in the current-runs list as running. *)
Theorem run_thread_appends (e : env) (r : run) (w : world) :
  hex8 (run_id r) = true ->
  let calls := run_thread e r in
  (writes_encodable e r = true ->
     exists body final,
       calls = body ++ [SaveSnapshot final; AppendHistory final]
       /\ appended_runs body = []
       /\ run_id final = run_id r
       /\ (status final = "success" \/ status final = "failed")
       /\ Forall (fun x => status x = status r) (snapshots body)
       /\ (forall n, (n < List.length calls)%nat ->
             history (perform_all w (firstn n calls)) = history w)
       /\ history (perform_all w calls) = history w ++ [final]
       /\ hd_error (builds (perform_all w calls)) = Some final)
  /\ (writes_encodable e r = false ->
        appended_runs calls = []
        /\ Forall (fun x => status x = status r) (snapshots calls)
        /\ (forall n, history (perform_all w (firstn n calls)) = history w)
        /\ history (perform_all w calls) = history w)
  /\ (encodable (job r) = false -> writes_encodable e r = false /\ calls = [])
  /\ (forall new_id now,
        hex8 new_id = true ->
        exists st,
          api_run lone_surrogate_request new_id now w = Some st
          /\ status (started_run st) = "running"
          /\ run_thread e (started_run st) = []
          /\ history (perform_all (started_world st)
                        (run_thread e (started_run st))) = history w
          /\ hd_error (builds (perform_all (started_world st)
                                 (run_thread e (started_run st))))
             = Some (started_run st)).
Proof.
  intros Hid calls. split; [|split; [|split]].
  - intros Henc. subst calls. rewrite (run_thread_complete e r Henc).
    apply trace_appends_once.
  - intros Henc. subst calls.
    destruct (run_thread_stopped e r Henc) as (Ha & Hst & _).
    split; [exact Ha|]. split; [exact Hst|]. split.
    + intros n. rewrite history_perform_all.
      rewrite (appended_runs_firstn _ Ha). apply app_nil_r.
    + rewrite history_perform_all, Ha. apply app_nil_r.
  - apply run_thread_job_raises.
  - intros new_id now _.
    eexists. split; [reflexivity|].
    cbn [started_run started_world status].
    split; [reflexivity|].
    match goal with
    | |- run_thread e ?x = [] /\ _ =>
        assert (E : run_thread e x = [])
          by (apply run_thread_job_raises; reflexivity)
    end.
    rewrite E. split; [reflexivity|]. split; reflexivity.
Qed.

Lemma run_thread_appends_witness :
  hex8 (run_id lone_surrogate_run) = true
  /\ encodable (job lone_surrogate_run) = false
  /\ run_thread demo_env lone_surrogate_run = []
  /\ api_run lone_surrogate_request "0a1b2c3d" demo_t0 (mkWorld [] [] [])
     = Some (mkStarted lone_surrogate_run (mkWorld [lone_surrogate_run] [] []))
  /\ history (perform_all (mkWorld [lone_surrogate_run] [] [])
                (run_thread demo_env lone_surrogate_run)) = [].
Proof.
  assert (Hid : hex8 (run_id lone_surrogate_run) = true) by reflexivity.
  assert (Hjob : encodable (job lone_surrogate_run) = false) by reflexivity.
  destruct (run_thread_appends demo_env lone_surrogate_run
              (mkWorld [lone_surrogate_run] [] []) Hid)
    as (_ & Hstop & Hraise & _).
  destruct (Hraise Hjob) as [Henc Hcalls].
  destruct (Hstop Henc) as (_ & _ & _ & Hh).
  split; [exact Hid|]. split; [exact Hjob|]. split; [exact Hcalls|].
  split; [reflexivity | exact Hh].
Defined.

(** X1. When no log write raises and every step passes its roll, the
    thread snapshots each step in order, then snapshots and appends the run
    once as a success with no current step; for [n] steps it makes [3n + 2]
    log writes, each one record more in the run's file, and sleeps [n]
    times (a run without steps succeeds at once). *)
Theorem run_thread_all_pass (e : env) (r : run) :
  writes_succeed e r = true ->
  all_pass e 0 (steps r) = true ->
  let n := List.length (steps r) in
  let final := succeeded_run e r (2 + 3 * n) in
  let calls := run_thread e r in
  appended_runs calls = [final]
  /\ map current_step (snapshots calls) = map Some (steps r) ++ [None]
  /\ last (snapshots calls) r = final
  /\ List.length (log_lines calls) = (3 * n + 2)%nat
  /\ List.length (sleeps calls) = n
  /\ (forall w,
        history (perform_all w calls) = history w ++ [final]
        /\ List.length (log_records (run_id r) (perform_all w calls))
           = (List.length (log_records (run_id r) w) + (3 * n + 2))%nat).
Proof.
  intros Hok Hpass n final calls.
  apply writes_succeed_split in Hok as [_ Henc].
  subst calls. rewrite (run_thread_complete e r Henc).
  destruct (trace_all_pass_effects e r Hpass) as (Ha & Hc & Hl & Hn & Hs & Hh).
  split; [exact Ha|]. split; [exact Hc|]. split; [exact Hl|].
  split; [exact Hn|]. split; [exact Hs|].
  intros w. split; [apply Hh|].
  destruct (log_records_perform_all r (_simulate_pipeline e r) w
              (proj2 (simulate_pipeline_ids e r))) as [Hown _].
  rewrite Hown, length_app, length_map. now rewrite Hn.
Qed.

Lemma run_thread_all_pass_witness :
  writes_succeed demo_env_pass demo_start = true
  /\ all_pass demo_env_pass 0 (steps demo_start) = true
  /\ List.length (log_lines (run_thread demo_env_pass demo_start)) = 11%nat
  /\ map status (appended_runs (run_thread demo_env_pass demo_start)) = ["success"].
Proof.
  assert (Hok : writes_succeed demo_env_pass demo_start = true)
    by (vm_compute; reflexivity).
  assert (H : all_pass demo_env_pass 0 (steps demo_start) = true)
    by (vm_compute; reflexivity).
  destruct (run_thread_all_pass demo_env_pass demo_start Hok H)
    as (Ha & _ & _ & Hl & _).
  split; [exact Hok|]. split; [exact H|]. split; [exact Hl|]. now rewrite Ha.
Defined.

(** X2. A thread whose log writes can all be encoded appends one record;
    the record is failed exactly when one of the steps fails its roll (the
    first such step being the one the run stops at) and a success exactly
    when all pass.  A thread one of whose log writes raises appends no
    record. *)
Theorem run_thread_outcome (e : env) (r : run) :
  hex8 (run_id r) = true ->
  (writes_encodable e r = true ->
     exists final,
       appended_runs (run_thread e r) = [final]
       /\ status final = (if all_pass e 0 (steps r) then "success" else "failed")
       /\ (status final = "failed" <->
           exists pre s post,
             steps r = pre ++ s :: post
             /\ all_pass e 0 pre = true
             /\ step_failed e (List.length pre) s = true))
  /\ (writes_encodable e r = false -> appended_runs (run_thread e r) = []).
Proof.
  intros _. split.
  - intros Henc. rewrite (run_thread_complete e r Henc). apply trace_outcome.
  - intros Henc. apply (run_thread_stopped e r Henc).
Qed.

Lemma run_thread_outcome_witness :
  hex8 (run_id demo_start) = true
  /\ writes_encodable demo_env demo_start = true
  /\ exists final,
       appended_runs (run_thread demo_env demo_start) = [final]
       /\ status final = "failed".
Proof.
  assert (Hid : hex8 (run_id demo_start) = true) by reflexivity.
  assert (Henc : writes_encodable demo_env demo_start = true)
    by (vm_compute; reflexivity).
  destruct (proj1 (run_thread_outcome demo_env demo_start Hid) Henc)
    as (final & Ha & Hs & _).
  split; [exact Hid|]. split; [exact Henc|].
  exists final. split; [exact Ha|]. rewrite Hs. vm_compute. reflexivity.
Defined.



(** What the calls of a thread that stops at a write leave in the
    current-runs list. *)
Lemma run_thread_stopped_builds (e : env) (r : run) (w : world) :
  writes_encodable e r = false ->
  builds (perform_all w (run_thread e r)) = builds w
  \/ exists x,
       run_id x = run_id r /\ status x = status r
       /\ builds (perform_all w (run_thread e r))
          = x :: firstn 99 (others r (builds w)).
Proof.
  intros Henc. destruct (run_thread_stopped e r Henc) as (_ & Hst & Hids & _).
  rewrite (builds_after_snapshots r _ Hids).
  destruct (rev (snapshots (run_thread e r))) as [|x xs] eqn:Ex; [now left|].
  right. exists x.
  assert (Hx : In x (snapshots (run_thread e r)))
    by (apply in_rev; rewrite Ex; now left).
  rewrite Forall_forall in Hst, Hids. now repeat split; auto.
Qed.

(** X6. The whole effect of one thread on the persisted state, when
    nothing else writes in between.  If its log writes can all be encoded,
    the final record stands first in the current-runs list, in front of the
    entries of the other runs (cut to 99), and the history gains exactly
    that record.  If one of them raises, the history is as before, and the
    current-runs list is as before or begins with a snapshot that has the
    status the run started with.  In both cases every record written goes
    to the run's own log file, so every other log file reads as before. *)
Theorem run_thread_net_effect (e : env) (r : run) (w : world) :
  hex8 (run_id r) = true ->
  let calls := run_thread e r in
  let w' := perform_all w calls in
  (writes_encodable e r = true ->
     exists final,
       appended_runs calls = [final]
       /\ builds w' = final :: firstn 99 (others r (builds w))
       /\ history w' = history w ++ [final])
  /\ (writes_encodable e r = false ->
        history w' = history w
        /\ (builds w' = builds w
            \/ exists x,
                 run_id x = run_id r /\ status x = status r
                 /\ builds w' = x :: firstn 99 (others r (builds w))))
  /\ log_records (run_id r) w'
     = log_records (run_id r) w ++ map snd (log_lines calls)
  /\ (forall rid, rid <> run_id r -> log_records rid w' = log_records rid w).
Proof.
  intros _ calls w'.
  assert (Htags : Forall (fun p => fst p = run_id r) (log_lines calls)).
  { subst calls. destruct (writes_encodable e r) eqn:Henc.
    - rewrite (run_thread_complete e r Henc). apply simulate_pipeline_ids.
    - apply (run_thread_stopped e r Henc). }
  split; [|split; [|exact (log_records_perform_all r calls w Htags)]].
  - intros Henc. subst w' calls. rewrite (run_thread_complete e r Henc).
    destruct (trace_net_effect e r w) as (final & Ha & Hb & Hh & _).
    now exists final.
  - intros Henc. subst w' calls. split.
    + rewrite history_perform_all.
      rewrite (proj1 (run_thread_stopped e r Henc)). apply app_nil_r.
    + now apply run_thread_stopped_builds.
Qed.

Lemma run_thread_net_effect_witness :
  hex8 (run_id demo_start) = true
  /\ writes_encodable demo_env demo_start = true
  /\ exists final,
       status final = "failed"
       /\ history (perform_all (mkWorld [demo_run "zz" "api-ci" "success"] [] [])
                     (run_thread demo_env demo_start)) = [final]
       /\ builds (perform_all (mkWorld [demo_run "zz" "api-ci" "success"] [] [])
                    (run_thread demo_env demo_start))
          = [final; demo_run "zz" "api-ci" "success"].
Proof.
  assert (Hid : hex8 (run_id demo_start) = true) by reflexivity.
  assert (Henc : writes_encodable demo_env demo_start = true)
    by (vm_compute; reflexivity).
  split; [exact Hid|]. split; [exact Henc|].
  destruct (proj1 (run_thread_net_effect demo_env demo_start
                     (mkWorld [demo_run "zz" "api-ci" "success"] [] []) Hid) Henc)
    as (final & Ha & Hb & Hh).
  exists final. split; [|split; [exact Hh | exact Hb]].
  assert (E : appended_runs (run_thread demo_env demo_start)
              = [failed_run demo_env demo_start 5]) by (vm_compute; reflexivity).
  rewrite Ha in E. injection E as ->. reflexivity.
Defined.

(** X7. From the request to the end of the thread, when nothing else
    writes in between.  The handler leaves a running, unfinished run with a
    non-empty list of steps, the first of them current, in front of the
    current-runs list, and touches neither the history nor the logs.  The
    log writes of the thread can all be encoded exactly when the job name
    can.  If it can, then after the thread the list holds one entry with
    the new id, the terminal record, in front of the entries the other runs
    had, and the history has gained that one record.  If it cannot, the
    thread ends at its first call: the state stays as the handler left it,
    with the run in the list as running and nothing in the history. *)
Theorem api_run_then_thread (body : option json) (new_id : string) (now : Z)
    (w : world) (st : started) (e : env) :
  api_run body new_id now w = Some st ->
  hex8 new_id = true ->
  let r := started_run st in
  let w1 := started_world st in
  let w2 := perform_all w1 (run_thread e r) in
  (run_id r = new_id /\ fresh r /\ steps r <> []
   /\ current_step r = hd_error (steps r))
  /\ (builds w1 = r :: firstn 99 (others r (builds w))
      /\ history w1 = history w /\ logs w1 = logs w)
  /\ writes_encodable e r = encodable (job r)
  /\ (encodable (job r) = true ->
        exists final,
          builds w2 = final :: firstn 99 (others r (builds w))
          /\ history w2 = history w ++ [final]
          /\ run_id final = new_id
          /\ (status final = "success" \/ status final = "failed")
          /\ (forall x, In x (builds w2) -> run_id x = new_id -> x = final))
  /\ (encodable (job r) = false ->
        run_thread e r = [] /\ w2 = w1
        /\ hd_error (builds w2) = Some r /\ status r = "running"
        /\ history w2 = history w /\ logs w2 = logs w).
Proof.
  intros Hrun Hhex r w1 w2.
  destruct (api_run_started body new_id now w st Hrun)
    as (Hid & Hfresh & Hsteps & Hcur & _ & Hw1).
  fold r in Hid, Hfresh, Hsteps, Hcur, Hw1. fold w1 in Hw1.
  assert (Hjob : writes_encodable e r = encodable (job r)).
  { apply writes_encodable_job.
    - rewrite Hid. now apply hex8_ascii.
    - rewrite Hsteps. apply pipeline_steps_ascii. }
  split; [|split; [|split; [exact Hjob|split]]].
  - split; [exact Hid|]. split; [exact Hfresh|]. split; [|exact Hcur].
    rewrite Hsteps. apply pipeline_steps_nonempty.
  - rewrite Hw1. now repeat split.
  - intros Henc. rewrite <- Hjob in Henc.
    subst w2. rewrite (run_thread_complete e r Henc).
    destruct (simulate_pipeline_world e r)
      as (pre & final & _ & _ & _ & Hfid & Hst & Hw).
    destruct (Hw w1) as [Hb Hh].
    assert (Hb2 : builds (perform_all w1 (_simulate_pipeline e r))
                  = final :: firstn 99 (others r (builds w))).
    { rewrite Hb, Hw1, save_current_snapshot_builds.
      rewrite (others_head r r) by reflexivity.
      rewrite others_kept, firstn_firstn. now rewrite Nat.min_id. }
    exists final. split; [exact Hb2|]. split; [|split; [|split]].
    + rewrite Hh, Hw1. reflexivity.
    + now rewrite Hfid.
    + exact Hst.
    + intros x Hx Hxid. rewrite Hb2 in Hx. destruct Hx as [<-|Hx]; [reflexivity|].
      exfalso. apply (kept_fresh r (builds w) 99).
      rewrite Hid, <- Hxid. now apply in_map.
  - intros Henc. destruct (run_thread_job_raises e r Henc) as [_ Hcalls].
    subst w2. rewrite Hcalls. cbn [perform_all fold_left].
    split; [reflexivity|]. split; [reflexivity|].
    rewrite Hw1. split; [reflexivity|]. split; [apply Hfresh|].
    now split.
Qed.

Lemma api_run_then_thread_witness :
  hex8 "ab12cd34" = true
  /\ (exists st final,
        api_run (Some (JObj [("job", JStr "api-ci")])) "ab12cd34" demo_t0
          (mkWorld [demo_run "zz" "app-ci" "success"] [] []) = Some st
        /\ builds (perform_all (started_world st)
                     (run_thread demo_env (started_run st)))
           = [final; demo_run "zz" "app-ci" "success"]
        /\ run_id final = "ab12cd34")
  /\ (exists st,
        api_run lone_surrogate_request "ab12cd34" demo_t0
          (mkWorld [demo_run "zz" "app-ci" "success"] [] []) = Some st
        /\ run_thread demo_env (started_run st) = []
        /\ history (perform_all (started_world st)
                      (run_thread demo_env (started_run st))) = []).
Proof.
  assert (Hhex : hex8 "ab12cd34" = true) by reflexivity.
  split; [exact Hhex|]. split.
  - eexists.
    assert (H : api_run (Some (JObj [("job", JStr "api-ci")])) "ab12cd34" demo_t0
                  (mkWorld [demo_run "zz" "app-ci" "success"] [] [])
                = Some (mkStarted
                          (mkRun "ab12cd34" "api-ci" "running"
                             (dict_get PIPELINE "api-ci" FALLBACK_STEPS)
                             (Some "checkout") demo_t0 None None)
                          (_save_current_snapshot
                             (mkRun "ab12cd34" "api-ci" "running"
                                (dict_get PIPELINE "api-ci" FALLBACK_STEPS)
                                (Some "checkout") demo_t0 None None)
                             (mkWorld [demo_run "zz" "app-ci" "success"] [] []))))
      by reflexivity.
    destruct (api_run_then_thread _ _ _ _ _ demo_env H Hhex)
      as (_ & _ & _ & Hgood & _).
    destruct (Hgood eq_refl) as (final & Hb & _ & Hid & _).
    exists final. split; [exact H|]. split; [exact Hb | exact Hid].
  - eexists.
    assert (H : api_run lone_surrogate_request "ab12cd34" demo_t0
                  (mkWorld [demo_run "zz" "app-ci" "success"] [] [])
                = Some (mkStarted
                          (mkRun "ab12cd34" lone_surrogate "running"
                             FALLBACK_STEPS (Some "checkout") demo_t0 None None)
                          (_save_current_snapshot
                             (mkRun "ab12cd34" lone_surrogate "running"
                                FALLBACK_STEPS (Some "checkout") demo_t0 None None)
                             (mkWorld [demo_run "zz" "app-ci" "success"] [] []))))
      by reflexivity.
    destruct (api_run_then_thread _ _ _ _ _ demo_env H Hhex)
      as (_ & _ & _ & _ & Hbad).
    destruct (Hbad eq_refl) as (Hcalls & _ & _ & _ & Hh & _).
    split; [exact H|]. split; [exact Hcalls | exact Hh].
Defined.

(** X11. A reset does not stop a thread in flight.  If the state is reset
    after the first [n] calls of a thread whose log writes can all be
    encoded, the rest of the thread writes it back: the run's final record
    is the history as long as the reset came before the last call, and it
    is the current-runs list as long as the reset came before the final
    snapshot.  Only a reset after the thread has ended leaves both empty.
    After a reset at any point of a thread that stops at a log write the
    history is empty. *)
Theorem reset_during_thread (e : env) (r : run) (w : world)
    (stuck : string -> bool) (n : nat) :
  hex8 (run_id r) = true ->
  let calls := run_thread e r in
  let w' := perform_all (api_reset stuck (perform_all w (firstn n calls)))
                        (skipn n calls) in
  (writes_encodable e r = true ->
     exists final,
       appended_runs calls = [final]
       /\ ((n < List.length calls)%nat -> history w' = [final])
       /\ ((n + 2 <= List.length calls)%nat -> builds w' = [final])
       /\ ((List.length calls <= n)%nat -> builds w' = [] /\ history w' = []))
  /\ (writes_encodable e r = false -> history w' = []).
Proof.
  intros _ calls w'. split.
  - intros Henc. subst w' calls. rewrite (run_thread_complete e r Henc).
    apply trace_reset.
  - intros Henc. subst w'. rewrite history_perform_all. cbn [api_reset history app].
    assert (Ha : appended_runs calls = []) by apply (run_thread_stopped e r Henc).
    rewrite (appended_runs_split n calls) in Ha.
    now apply app_eq_nil in Ha.
Qed.

Lemma reset_during_thread_witness :
  hex8 (run_id demo_start) = true
  /\ writes_encodable demo_env demo_start = true
  /\ exists final,
       status final = "failed"
       /\ history (perform_all
                     (api_reset (fun _ => false)
                        (perform_all
                           (mkWorld [demo_run "zz" "api-ci" "success"]
                                    [demo_run "zz" "api-ci" "success"] [])
                           (firstn 5 (run_thread demo_env demo_start))))
                     (skipn 5 (run_thread demo_env demo_start))) = [final].
Proof.
  assert (Hid : hex8 (run_id demo_start) = true) by reflexivity.
  assert (Henc : writes_encodable demo_env demo_start = true)
    by (vm_compute; reflexivity).
  split; [exact Hid|]. split; [exact Henc|].
  destruct (proj1 (reset_during_thread demo_env demo_start
                     (mkWorld [demo_run "zz" "api-ci" "success"]
                              [demo_run "zz" "api-ci" "success"] [])
                     (fun _ => false) 5 Hid) Henc)
    as (final & Ha & Hh & _).
  exists final. split.
  - assert (E : appended_runs (run_thread demo_env demo_start)
                = [failed_run demo_env demo_start 5]) by (vm_compute; reflexivity).
    rewrite Ha in E. injection E as ->. reflexivity.
  - apply Hh. vm_compute. lia.
Defined.

(** X16. The log of a thread whose writes all succeed: the records it
    writes begin with the start record, which names the run and its job,
    and end with the finish record, which names the status of the record
    appended to the history; all of them go to the run's own file, behind
    what the file held.  A thread whose job name cannot be encoded writes
    no record. *)
Theorem run_thread_log_frame (e : env) (r : run) :
  hex8 (run_id r) = true ->
  let calls := run_thread e r in
  (writes_encodable e r = true ->
     exists final middle ts,
       appended_runs calls = [final]
       /\ map fst (log_lines calls)
          = repeat (run_id r) (List.length (log_lines calls))
       /\ map snd (log_lines calls)
          = mkLine (_utcnow_iso e 1)
              ("Run " ++ run_id r ++ " started (job=" ++ job r ++ ")")
            :: middle
            ++ [mkLine ts ("Run " ++ run_id r ++ " finished with status="
                           ++ status final)]
       /\ forall w,
            log_records (run_id r) (perform_all w calls)
            = log_records (run_id r) w ++ map snd (log_lines calls))
  /\ (encodable (job r) = false ->
        log_lines calls = []
        /\ forall w rid, log_records rid (perform_all w calls) = log_records rid w).
Proof.
  intros _ calls. split.
  - intros Henc. subst calls. rewrite (run_thread_complete e r Henc).
    destruct (trace_log_frame e r) as (final & middle & ts & Ha & Ht & Hl).
    exists final, middle, ts. split; [exact Ha|]. split; [exact Ht|].
    split; [exact Hl|]. intros w.
    apply (log_records_perform_all r (_simulate_pipeline e r) w).
    apply simulate_pipeline_ids.
  - intros Hjob. subst calls.
    rewrite (proj2 (run_thread_job_raises e r Hjob)). now split.
Qed.

Lemma run_thread_log_frame_witness :
  hex8 (run_id demo_start) = true
  /\ writes_encodable demo_env demo_start = true
  /\ exists middle ts,
       map snd (log_lines (run_thread demo_env demo_start))
       = mkLine (_utcnow_iso demo_env 1) "Run ab12cd34 started (job=nightly)"
         :: middle ++ [mkLine ts "Run ab12cd34 finished with status=failed"].
Proof.
  assert (Hid : hex8 (run_id demo_start) = true) by reflexivity.
  assert (Henc : writes_encodable demo_env demo_start = true)
    by (vm_compute; reflexivity).
  split; [exact Hid|]. split; [exact Henc|].
  destruct (proj1 (run_thread_log_frame demo_env demo_start Hid) Henc)
    as (final & middle & ts & Ha & _ & Hl & _).
  exists middle, ts. rewrite Hl.
  assert (E : appended_runs (run_thread demo_env demo_start)
              = [failed_run demo_env demo_start 5]) by (vm_compute; reflexivity).
  rewrite Ha in E. injection E as ->. reflexivity.
Defined.

(** ** Threads side by side *)

Lemma interleave_left_all {A : Type} (l : list A) : interleave l [] l.
Proof. induction l; now constructor. Qed.

(** The last element of a merge is the last element of one of the two
    sequences, the rest being a merge of what is left. *)
Lemma interleave_last {A : Type} (a b : A) (l1 l2 l : list A) :
  interleave (l1 ++ [a]) (l2 ++ [b]) l ->
  (exists l', l = l' ++ [a] /\ interleave l1 (l2 ++ [b]) l')
  \/ (exists l', l = l' ++ [b] /\ interleave (l1 ++ [a]) l2 l').
Proof.
  remember (l1 ++ [a]) as x eqn:Ex. remember (l2 ++ [b]) as y eqn:Ey.
  intros H. revert l1 l2 Ex Ey.
  induction H as [|c x y l H IH|c x y l H IH]; intros l1 l2 Ex Ey.
  - now destruct l1.
  - destruct l1 as [|c1 l1]; cbn [app] in Ex; injection Ex as -> ->.
    + right. exists (a :: l2). apply interleave_nil_l in H. subst l y.
      split; [reflexivity|]. cbn [app]. constructor. apply interleave_right_all.
    + destruct (IH l1 l2 eq_refl Ey) as [(l' & -> & Hi) | (l' & -> & Hi)].
      * left. exists (c1 :: l'). split; [reflexivity | now constructor].
      * right. exists (c1 :: l'). split; [reflexivity|].
        cbn [app]. now constructor.
  - destruct l2 as [|c2 l2]; cbn [app] in Ey; injection Ey as -> ->.
    + left. exists (b :: l1). apply interleave_nil_r in H. subst l x.
      split; [reflexivity|]. cbn [app]. constructor. apply interleave_left_all.
    + destruct (IH l1 l2 Ex eq_refl) as [(l' & -> & Hi) | (l' & -> & Hi)].
      * left. exists (c2 :: l'). split; [reflexivity|].
        cbn [app]. now constructor.
      * right. exists (c2 :: l'). split; [reflexivity | now constructor].
Qed.

Lemma interleave_appended (l1 l2 l : list effect) :
  interleave l1 l2 l ->
  interleave (appended_runs l1) (appended_runs l2) (appended_runs l).
Proof. apply interleave_flat_map. Qed.

Lemma interleave_log_lines (l1 l2 l : list effect) :
  interleave l1 l2 l -> interleave (log_lines l1) (log_lines l2) (log_lines l).
Proof. apply interleave_flat_map. Qed.

(** X10. Two threads whose log writes all succeed and whose calls to the
    stores alternate in any order, each call taking place whole (the source
    takes no lock: this is an assumption on the schedule).  The history
    gains the final record of each run exactly once, in the order in which
    the threads end: the thread that makes the last call of all, its
    append, has its record last.  When the two ids differ each log file
    gains the records of its own thread, in order, and none of the other. *)
Theorem interleaved_threads (e1 e2 : env) (r1 r2 : run) (efs : list effect)
    (w : world) :
  writes_succeed e1 r1 = true ->
  writes_succeed e2 r2 = true ->
  interleave (run_thread e1 r1) (run_thread e2 r2) efs ->
  let w' := perform_all w efs in
  exists f1 f2,
    appended_runs (run_thread e1 r1) = [f1]
    /\ appended_runs (run_thread e2 r2) = [f2]
    /\ history w' = history w ++ appended_runs efs
    /\ (((exists pre, efs = pre ++ [AppendHistory f2])
         /\ history w' = history w ++ [f1; f2])
        \/ ((exists pre, efs = pre ++ [AppendHistory f1])
            /\ history w' = history w ++ [f2; f1]))
    /\ (run_id r1 <> run_id r2 ->
        log_records (run_id r1) w'
        = log_records (run_id r1) w ++ map snd (log_lines (run_thread e1 r1))
        /\ log_records (run_id r2) w'
           = log_records (run_id r2) w
             ++ map snd (log_lines (run_thread e2 r2))).
Proof.
  intros Hok1 Hok2.
  apply writes_succeed_split in Hok1 as [_ Henc1].
  apply writes_succeed_split in Hok2 as [_ Henc2].
  rewrite (run_thread_complete e1 r1 Henc1), (run_thread_complete e2 r2 Henc2).
  intros Hmix w'.
  destruct (simulate_pipeline_world e1 r1) as (p1 & f1 & E1 & Hp1 & Ha1 & _).
  destruct (simulate_pipeline_world e2 r2) as (p2 & f2 & E2 & Hp2 & Ha2 & _).
  exists f1, f2. split; [exact Ha1|]. split; [exact Ha2|].
  split; [apply history_perform_all|]. split.
  - subst w'. rewrite history_perform_all.
    assert (E1' : _simulate_pipeline e1 r1
                  = (p1 ++ [SaveSnapshot f1]) ++ [AppendHistory f1])
      by (rewrite E1, <- app_assoc; reflexivity).
    assert (E2' : _simulate_pipeline e2 r2
                  = (p2 ++ [SaveSnapshot f2]) ++ [AppendHistory f2])
      by (rewrite E2, <- app_assoc; reflexivity).
    assert (Hq1 : appended_runs (p1 ++ [SaveSnapshot f1]) = [])
      by (rewrite appended_runs_app, Hp1; reflexivity).
    assert (Hq2 : appended_runs (p2 ++ [SaveSnapshot f2]) = [])
      by (rewrite appended_runs_app, Hp2; reflexivity).
    pose proof Hmix as Hlast. rewrite E1' in Hlast. rewrite E2' in Hlast at 1.
    apply interleave_last in Hlast as [(l' & -> & Hi) | (l' & -> & Hi)].
    + right. split; [now exists l'|].
      apply interleave_appended in Hi. rewrite Hq1, <- E2', Ha2 in Hi.
      apply interleave_nil_l in Hi.
      rewrite appended_runs_app, Hi. reflexivity.
    + left. split; [now exists l'|].
      apply interleave_appended in Hi. rewrite Hq2, <- E1', Ha1 in Hi.
      apply interleave_nil_r in Hi.
      rewrite appended_runs_app, Hi. reflexivity.
  - intros Hids. subst w'. unfold log_records. rewrite logs_perform_all.
    pose proof (interleave_log_lines _ _ _ Hmix) as Hi.
    destruct (simulate_pipeline_ids e1 r1) as [_ Ht1].
    destruct (simulate_pipeline_ids e2 r2) as [_ Ht2].
    split; rewrite filter_app, map_app; f_equal; f_equal.
    + pose proof (interleave_filter
                    (fun p => String.eqb (fst p) (run_id r1)) _ _ _ Hi) as Hf.
      rewrite (filter_tagged (run_id r1) _ Ht1),
              (filter_tagged (run_id r2) _ Ht2), String.eqb_refl in Hf.
      destruct (String.eqb_spec (run_id r2) (run_id r1)) as [E|_];
        [now symmetry in E|].
      now apply interleave_nil_r in Hf.
    + pose proof (interleave_filter
                    (fun p => String.eqb (fst p) (run_id r2)) _ _ _ Hi) as Hf.
      rewrite (filter_tagged (run_id r1) _ Ht1),
              (filter_tagged (run_id r2) _ Ht2), String.eqb_refl in Hf.
      destruct (String.eqb_spec (run_id r1) (run_id r2)) as [E|_];
        [contradiction|].
      now apply interleave_nil_l in Hf.
Qed.

Lemma interleaved_threads_witness :
  writes_succeed demo_env demo_start = true
  /\ writes_succeed demo_env demo_start2 = true
  /\ interleave (run_thread demo_env demo_start) (run_thread demo_env demo_start2)
       (run_thread demo_env demo_start ++ run_thread demo_env demo_start2)
  /\ map run_id
       (history (perform_all (mkWorld [] [] [])
                   (run_thread demo_env demo_start
                    ++ run_thread demo_env demo_start2)))
     = ["ab12cd34"; "ef56ab78"].
Proof.
  assert (H1 : writes_succeed demo_env demo_start = true)
    by (vm_compute; reflexivity).
  assert (H2 : writes_succeed demo_env demo_start2 = true)
    by (vm_compute; reflexivity).
  assert (H : interleave (run_thread demo_env demo_start)
                (run_thread demo_env demo_start2)
                (run_thread demo_env demo_start ++ run_thread demo_env demo_start2))
    by apply interleave_concat.
  split; [exact H1|]. split; [exact H2|]. split; [exact H|].
  destruct (interleaved_threads demo_env demo_env demo_start demo_start2 _
              (mkWorld [] [] []) H1 H2 H) as (f1 & f2 & _ & _ & Hh & _).
  rewrite Hh. vm_compute. reflexivity.
Defined.

(** ** The mean time to recovery *)

Lemma calc_stats_on_plain (now : Z) (w : world) :
  _calc_stats_on PlainSum now w = _calc_stats now w.
Proof. reflexivity. Qed.

Lemma mapM_length {A B : Type} (f : A -> option B) (l : list A) :
  forall bs, mapM f l = Some bs -> List.length bs = List.length l.
Proof.
  induction l as [|a l IH]; intros bs H.
  - now injection H as <-.
  - cbn [mapM] in H. destruct (f a) as [b|]; [|discriminate].
    destruct (mapM f l) as [bs'|]; [|discriminate].
    injection H as <-. cbn [List.length]. f_equal. now apply IH.
Qed.

(** The code's mean of the window is the float mean of its recovery times. *)
Lemma mttr_on_spec (sm : summation) (l7 : list run) :
  Forall (fun x => is_some (finished_at x) = true) l7 ->
  mttr_on sm l7 = truncated_float_mean sm (recoveries l7).
Proof.
  intros Hfin. unfold mttr_on, truncated_float_mean, recoveries.
  rewrite (mttr_loop_spec l7 Hfin). cbn [app].
  destruct (recoveries_in l7 l7) as [|d ds] eqn:Er; [reflexivity|].
  destruct (mapM spec_minutes (d :: ds)) as [ms|] eqn:Ems; [|reflexivity].
  pose proof (mapM_length _ _ _ Ems) as Hlen.
  unfold mean_minutes_on, len. rewrite Hlen.
  destruct ms as [|m ms]; [discriminate | reflexivity].
Qed.

Lemma calc_stats_on_mttr (sm : summation) (now : Z) (w : world) (st : stats) :
  _calc_stats_on sm now w = Some st ->
  mttr_on sm (last7 now (history w)) = Some (mttr_minutes st).
Proof.
  unfold _calc_stats_on. destruct (history w) as [|h hist] eqn:Eh.
  - intros [= <-]. reflexivity.
  - cbv zeta.
    destruct (avg_duration_of _) as [a|]; [|discriminate].
    destruct (mttr_on sm _) as [m|]; [|discriminate].
    destruct (rate (count_status "success" _) _) as [sr|]; [|discriminate].
    destruct (rate (count_status "failed" _) _) as [fr|]; [|discriminate].
    now intros [= <-].
Qed.

(** The statistics are returned whenever the two means are. *)
Lemma calc_stats_on_returns (sm : summation) (now : Z) (w : world) (a m : Z) :
  let win := last7 now (history w) in
  history w <> [] ->
  avg_duration_of win = Some a -> mttr_on sm win = Some m ->
  exists st, _calc_stats_on sm now w = Some st /\ mttr_minutes st = m.
Proof.
  intros win Hne Ha Hm. unfold _calc_stats_on.
  destruct (history w) as [|h hist] eqn:Eh; [contradiction|].
  cbv zeta. fold win. rewrite Ha, Hm.
  rewrite !count_status_spec, !rate_spec by apply spec_count_bounds.
  eexists. split; reflexivity.
Qed.

Lemma multiples_In (unit : Z) (N : nat) (d : Z) :
  (exists i, (1 <= i <= N)%nat /\ d = Z.of_nat i * unit) -> In d (multiples unit N).
Proof.
  intros (i & Hi & ->). unfold multiples.
  apply in_map_iff. exists i. split; [reflexivity|]. apply in_seq. lia.
Qed.

Lemma lists_upto3_In {A : Type} (g : list A) (ds : list A) :
  (1 <= List.length ds <= 3)%nat -> Forall (fun d => In d g) ds ->
  In ds (lists_upto3 g).
Proof.
  intros Hlen Hall. unfold lists_upto3.
  destruct ds as [|a [|b [|c [|x ds]]]]; cbn [List.length] in Hlen; try lia.
  - inversion_clear Hall as [|? ? Ha _]. apply in_or_app. left.
    apply in_map_iff. now exists a.
  - inversion_clear Hall as [|? ? Ha Hall']. inversion_clear Hall' as [|? ? Hb _].
    apply in_or_app. right. apply in_or_app. left.
    apply in_flat_map. exists a. split; [exact Ha|].
    apply in_map_iff. now exists b.
  - inversion_clear Hall as [|? ? Ha Hall']. inversion_clear Hall' as [|? ? Hb Hall].
    inversion_clear Hall as [|? ? Hc _].
    apply in_or_app. right. apply in_or_app. right.
    apply in_flat_map. exists a. split; [exact Ha|].
    apply in_flat_map. exists b. split; [exact Hb|].
    apply in_map_iff. now exists c.
Qed.

Lemma on_grid_In (unit : Z) (N : nat) (ds : list Z) :
  on_grid unit N ds -> In ds (lists_upto3 (multiples unit N)).
Proof.
  intros [Hlen Hall]. apply lists_upto3_In; [exact Hlen|].
  apply Forall_forall. intros d Hd. rewrite Forall_forall in Hall.
  now apply multiples_In, Hall.
Qed.

Lemma check_all_sound (p : summation -> list Z -> bool) (ls : list (list Z)) :
  check_all p ls = true ->
  forall ds, In ds ls -> forall sm, p sm ds = true.
Proof.
  unfold check_all. intros H ds Hin sm. rewrite forallb_forall in H.
  apply H in Hin. apply andb_true_iff in Hin as [H1 H2]. now destruct sm.
Qed.

Lemma mean_within_one_sound (sm : summation) (ds : list Z) :
  mean_within_one sm ds = true ->
  exists m, truncated_float_mean sm ds = Some m
            /\ exact_mean_minutes ds - 1 <= m <= exact_mean_minutes ds.
Proof.
  unfold mean_within_one. destruct (truncated_float_mean sm ds) as [m|];
    [|discriminate].
  intros H. apply andb_true_iff in H as [H1 H2].
  apply Z.leb_le in H1, H2. exists m. split; [reflexivity | lia].
Qed.

Lemma mean_is_exact_sound (sm : summation) (ds : list Z) :
  mean_is_exact sm ds = true ->
  truncated_float_mean sm ds = Some (exact_mean_minutes ds).
Proof.
  unfold mean_is_exact. destruct (truncated_float_mean sm ds) as [m|];
    [|discriminate].
  intros H. apply Z.eqb_eq in H. now subst.
Qed.

(** The three checks, each on every list of its grid and under both
    summations. *)
Lemma grid_20s_within_one :
  check_all mean_within_one (lists_upto3 (multiples (20 * SECOND) 10)) = true.
Proof. vm_compute. reflexivity. Qed.

Lemma grid_minutes_exact :
  check_all mean_is_exact (lists_upto3 (multiples MINUTE 6)) = true.
Proof. vm_compute. reflexivity. Qed.

Lemma single_seconds_exact :
  check_all mean_is_exact (map (fun d => [d]) (multiples SECOND 600)) = true.
Proof. vm_compute. reflexivity. Qed.

Lemma five_minutes_mean (sm : summation) :
  truncated_float_mean sm [FIVE_MINUTES] = Some 5.
Proof. destruct sm; vm_compute; reflexivity. Qed.

(** C1, as the code has it.  [mttr_minutes] is a mean over the recovery
    times of the window: one for each failed run that some successful run of
    the same job in the window finishes after, namely the time to the
    earliest such run; a failed run without such a run has no recovery time
    and does not enter the mean; without recovery times the result is [0].
    The mean is computed in floats, each recovery time in minutes, their
    sum divided by their number and cut to an integer, with the [sum] of
    either generation of CPython.  A failure at [T0] followed by a success
    of the same job five minutes later gives [5].  The result is the exact
    integer mean for a single recovery of up to 600 whole seconds and for up
    to three recoveries of up to 6 whole minutes; for up to three
    recoveries that are multiples of 20 seconds up to 200 seconds it is the
    exact integer mean or one less.  On recoveries of 64, 61 and 55 seconds
    the two summations differ. *)
Theorem calc_stats_mttr_float_mean (sm : summation) (now : Z) (w : world) :
  let win := last7 now (history w) in
  let ds := recoveries win in
  (forall h, In h win <-> In h (history w) /\ in_window now h)
  /\ Forall2 (is_recovery win) (recoverable win) ds
  /\ (forall f, In f win -> status f = "failed" ->
        (forall x, In x win -> qualifies f x = false) ->
        ~ In f (recoverable win))
  /\ (forall f s, In f win -> In s win -> status f = "failed" ->
        qualifies f s = true -> In f (recoverable win) /\ ds <> [])
  /\ mttr_on sm win = truncated_float_mean sm ds
  /\ (forall st, _calc_stats_on sm now w = Some st ->
        mttr_on sm win = Some (mttr_minutes st))
  /\ (forall a m, history w <> [] ->
        avg_duration_of win = Some a -> mttr_on sm win = Some m ->
        exists st, _calc_stats_on sm now w = Some st /\ mttr_minutes st = m)
  /\ (ds = [] -> mttr_on sm win = Some 0)
  /\ (forall i, (1 <= i <= 600)%nat -> ds = [Z.of_nat i * SECOND] ->
        mttr_on sm win = Some (exact_mean_minutes ds))
  /\ (on_grid MINUTE 6 ds -> mttr_on sm win = Some (exact_mean_minutes ds))
  /\ (on_grid (20 * SECOND) 10 ds ->
        exists m, mttr_on sm win = Some m
                  /\ exact_mean_minutes ds - 1 <= m <= exact_mean_minutes ds)
  /\ (forall f s T0,
        history w = [f; s] \/ history w = [s; f] ->
        status f = "failed" -> status s = "success" -> job s = job f ->
        finished_at f = Some T0 -> finished_at s = Some (T0 + FIVE_MINUTES) ->
        now - T0 <= WEEK_US ->
        ds = [FIVE_MINUTES]
        /\ exact_mean_minutes ds = 5
        /\ mttr_on sm win = Some 5
        /\ forall st, _calc_stats_on sm now w = Some st -> mttr_minutes st = 5)
  /\ (truncated_float_mean PlainSum [64 * SECOND; 61 * SECOND; 55 * SECOND] = Some 0
      /\ truncated_float_mean CompensatedSum [64 * SECOND; 61 * SECOND; 55 * SECOND]
         = Some 1
      /\ exact_mean_minutes [64 * SECOND; 61 * SECOND; 55 * SECOND] = 1).
Proof.
  intros win ds.
  assert (Hspec : mttr_on sm win = truncated_float_mean sm ds)
    by (apply mttr_on_spec, last7_finished).
  assert (Hm : forall st, _calc_stats_on sm now w = Some st ->
                 mttr_on sm win = Some (mttr_minutes st))
    by (intros st; apply calc_stats_on_mttr).
  assert (Hrec : Forall2 (is_recovery win) (recoverable win) ds)
    by apply recoveries_in_spec.
  split; [intros h; apply last7_In|]. split; [exact Hrec|].
  split; [|split; [|split; [exact Hspec|split; [exact Hm|split;
    [|split; [|split; [|split; [|split; [|split]]]]]]]]].
  - intros f Hin Hf Hnone Hr. unfold recoverable, recoverable_in in Hr.
    apply filter_In in Hr as [_ Hr]. apply andb_true_iff in Hr as [_ Hex].
    apply existsb_exists in Hex as (x & Hx & Hq).
    rewrite (Hnone x Hx) in Hq. discriminate.
  - intros f s Hf Hs Hfailed Hq.
    assert (Hr : In f (recoverable win)).
    { unfold recoverable, recoverable_in. apply filter_In. split; trivial.
      rewrite Hfailed. cbn [String.eqb Ascii.eqb Bool.eqb andb].
      apply existsb_exists. now exists s. }
    split; trivial. intros E. rewrite E in Hrec. inversion Hrec as [E'|].
    rewrite <- E' in Hr. destruct Hr.
  - intros a m. apply calc_stats_on_returns.
  - intros E. now rewrite Hspec, E.
  - intros i Hi E. rewrite Hspec. apply mean_is_exact_sound.
    apply (check_all_sound _ _ single_seconds_exact).
    rewrite E. apply (in_map (fun d => [d])). apply multiples_In. now exists i.
  - intros Hg. rewrite Hspec. apply mean_is_exact_sound.
    apply (check_all_sound _ _ grid_minutes_exact). now apply on_grid_In.
  - intros Hg. rewrite Hspec. apply mean_within_one_sound.
    apply (check_all_sound _ _ grid_20s_within_one). now apply on_grid_In.
  - intros f s T0 Hhist Hf Hs Hj Tf Ts Hwf.
    assert (Hws : now - (T0 + FIVE_MINUTES) <= WEEK_US)
      by (unfold FIVE_MINUTES; lia).
    assert (Hwin : win = history w).
    { subst win. apply last7_all.
      destruct Hhist as [-> | ->]; repeat constructor.
      - now exists T0.
      - now exists (T0 + FIVE_MINUTES).
      - now exists (T0 + FIVE_MINUTES).
      - now exists T0. }
    destruct (recoveries_failure_then_success f s T0 Hf Hs Hj Tf Ts) as [E1 E2].
    assert (E : ds = [FIVE_MINUTES])
      by (subst ds; rewrite Hwin; destruct Hhist as [-> | ->]; assumption).
    split; [exact E|]. split; [rewrite E; reflexivity|].
    assert (H5 : mttr_on sm win = Some 5)
      by (rewrite Hspec, E; apply five_minutes_mean).
    split; [exact H5|].
    intros st Hst. specialize (Hm st Hst). congruence.
  - split; [vm_compute; reflexivity|]. split; vm_compute; reflexivity.
Qed.

Lemma calc_stats_mttr_float_mean_witness :
  (exists st,
     _calc_stats_on CompensatedSum demo_now (mkWorld [] demo_history []) = Some st
     /\ mttr_minutes st = 5)
  /\ on_grid (20 * SECOND) 10 [60 * SECOND; 80 * SECOND; 40 * SECOND]
  /\ recoveries (last7 demo_now demo_history) = [FIVE_MINUTES].
Proof.
  pose proof (calc_stats_mttr_float_mean CompensatedSum demo_now
                (mkWorld [] demo_history [])) as T.
  cbv zeta in T.
  destruct T as (_ & _ & _ & _ & _ & _ & Hret & _ & _ & _ & _ & Hex & _).
  destruct (Hex (demo_entry "a1" "app-ci" "failed" demo_t0 0)
              (demo_entry "b2" "app-ci" "success" (demo_t0 + FIVE_MINUTES) 10)
              demo_t0) as (Hds & _ & H5 & _);
    try reflexivity; [now left | vm_compute; discriminate |].
  split; [|split; [|exact Hds]].
  - apply (Hret 10 5); [discriminate | vm_compute; reflexivity | exact H5].
  - split; [cbn; lia|].
    repeat constructor; [exists 3%nat | exists 4%nat | exists 2%nat];
      (split; [lia | reflexivity]).
Defined.

(** C1, the claim as the specification words it, refuted.  Three failures,
    each followed by a success of the same job after 9, 131 and 40 seconds:
    three minutes of recovery in all, so the integer mean of the recovery
    times is one minute; the statistics report [0], under either
    summation. *)
Lemma calc_stats_mttr_below_exact_mean :
  recoveries (last7 demo_now uneven_history)
  = [9 * SECOND; 131 * SECOND; 40 * SECOND]
  /\ exact_mean_minutes (recoveries (last7 demo_now uneven_history)) = 1
  /\ option_map mttr_minutes (_calc_stats demo_now (mkWorld [] uneven_history []))
     = Some 0
  /\ option_map mttr_minutes
       (_calc_stats_on PlainSum demo_now (mkWorld [] uneven_history [])) = Some 0
  /\ option_map mttr_minutes
       (_calc_stats_on CompensatedSum demo_now (mkWorld [] uneven_history []))
     = Some 0.
Proof. repeat split; vm_compute; reflexivity. Qed.
